(** * Fall audit core: a shallow embedding of [AIProcessingCore]

    The development follows [fall_audit_final_qwen_brain.py].  The core's
    methods ([build_prompt], [call_llm], [parse_llm_output], [process_rows],
    [save_results]) are translated one by one; the Python library functions
    they call ([str.strip], [str.join], [re.findall], [json.loads],
    [textwrap.dedent], [csv.writer]) are modelled next to them, following
    CPython 3.11 (the C accelerators of [json] where they differ from the
    pure Python fallback).

    Modelling choices.
    - A Python [str] is a list of code points ([N]).
    - A call that may raise returns a [py_result]; [try]/[except] is a match
      on the exception.
    - The inference process and the observer thread are the environment of a
      run: an oracle answers each [subprocess.run], a schedule says at which
      record boundary the observer's write to [cancel_requested] is seen.
    - The output file holds text; its utf-8 encoding is not modelled.
    - Floats are kept as the text [float()] is applied to; [str()] of a float
      and [repr()] of a string are parameters of the csv writer's model.
    - Limits of the interpreter (recursion depth, digits of an integer
      literal, memory) are not modelled. *)

From Stdlib Require Import String Ascii DecimalString.
From Stdlib Require Import Bool Arith NArith ZArith Lia List Sorted.
Import ListNotations.
Local Open Scope list_scope.

(** ** Python strings *)

Definition char := N.
Definition str := list char.

Definition lit (s : string) : str := map N_of_ascii (list_ascii_of_string s).
Arguments lit s%_string.

Definition LF : char := 10%N.
Definition CR : char := 13%N.
Definition TAB : char := 9%N.
Definition SPACE : char := 32%N.
Definition DQUOTE : char := 34%N.
Definition BACKSLASH : char := 92%N.
Definition BACKTICK : char := 96%N.

(** [quoted s] is [s] between two double quotes. *)
Definition quoted (s : string) : str := DQUOTE :: lit s ++ [DQUOTE].
Arguments quoted s%_string.

Definition str_eqb (a b : str) : bool :=
  if list_eq_dec N.eq_dec a b then true else false.

(** [s.startswith(p)], and the rest of [s] after [p]. *)
Fixpoint strip_prefix (p s : str) : option str :=
  match p, s with
  | [], _ => Some s
  | _ :: _, [] => None
  | a :: p', b :: s' => if (a =? b)%N then strip_prefix p' s' else None
  end.

Definition startswith (s p : str) : bool :=
  match strip_prefix p s with Some _ => true | None => false end.

(** [Py_UNICODE_ISSPACE]: the characters [str.strip()] removes and the
    regular expression class [\s] matches on a [str] pattern. *)
Definition isspace (c : char) : bool :=
  ((9 <=? c) && (c <=? 13) || (28 <=? c) && (c <=? 32)
   || (c =? 133) || (c =? 160) || (c =? 5760)
   || (8192 <=? c) && (c <=? 8202)
   || (c =? 8232) || (c =? 8233) || (c =? 8239) || (c =? 8287)
   || (c =? 12288))%N.

Fixpoint lstrip (s : str) : str :=
  match s with
  | c :: r => if isspace c then lstrip r else s
  | [] => []
  end.

Definition rstrip (s : str) : str := rev (lstrip (rev s)).

(** [s.strip()] *)
Definition strip (s : str) : str := rstrip (lstrip s).

(** [sep.join(parts)] *)
Fixpoint join (sep : str) (parts : list str) : str :=
  match parts with
  | [] => []
  | [p] => p
  | p :: ps => p ++ sep ++ join sep ps
  end.

(** [s.split(sep)] for a one-character separator. *)
Fixpoint split (sep : char) (s : str) : list str :=
  match s with
  | [] => [[]]
  | c :: r =>
      if (c =? sep)%N then [] :: split sep r
      else match split sep r with
           | l :: ls => (c :: l) :: ls
           | [] => [[c]]
           end
  end.

(** ['%d' % n] *)
Definition str_of_nat (n : nat) : str := lit (NilZero.string_of_uint (Nat.to_uint n)).

Definition str_of_Z (z : Z) : str := lit (NilZero.string_of_int (Z.to_int z)).

(** ** Python values and exceptions *)

(** The values [json.loads] builds.  A [dict] keeps its keys in insertion
    order. *)
#[local] Unset Elimination Schemes.
Inductive pyvalue : Type :=
| PNone
| PBool (b : bool)
| PInt (z : Z)
| PFloat (lexeme : str)
| PStr (s : str)
| PList (items : list pyvalue)
| PDict (pairs : list (str * pyvalue)).
#[local] Set Elimination Schemes.

(** [d[k] = v] *)
Fixpoint dict_set (d : list (str * pyvalue)) (k : str) (v : pyvalue)
  : list (str * pyvalue) :=
  match d with
  | [] => [(k, v)]
  | (k', v') :: d' =>
      if str_eqb k' k then (k', v) :: d' else (k', v') :: dict_set d' k v
  end.

(** [d.get(k)]: [k in d] is [dict_get d k <> None], [d[k]] its value. *)
Fixpoint dict_get (d : list (str * pyvalue)) (k : str) : option pyvalue :=
  match d with
  | [] => None
  | (k', v) :: d' => if str_eqb k' k then Some v else dict_get d' k
  end.

Inductive exn : Type :=
| JSONDecodeError (msg : string) (doc : str) (pos : nat)
| RecursionError
| OSError (what : string).

Inductive py_result (A : Type) : Type :=
| Return (a : A)
| Raise (e : exn).
Arguments Return {A} a.
Arguments Raise {A} e.

(** ** [json.loads] *)

Module Json.

(** [IS_WHITESPACE] of [_json.c], the class [[ \t\n\r]] of [WHITESPACE]. *)
Definition is_ws (c : char) : bool :=
  ((c =? 32) || (c =? 9) || (c =? 10) || (c =? 13))%N.

Fixpoint skip_ws (s : str) : str :=
  match s with
  | c :: r => if is_ws c then skip_ws r else s
  | [] => []
  end.

Definition is_digit (c : char) : bool := ((48 <=? c) && (c <=? 57))%N.

Definition hex_digit (c : char) : option N :=
  if ((48 <=? c) && (c <=? 57))%N then Some (c - 48)%N
  else if ((97 <=? c) && (c <=? 102))%N then Some (c - 87)%N
  else if ((65 <=? c) && (c <=? 70))%N then Some (c - 55)%N
  else None.

Definition hex4 (a b c d : char) : option N :=
  match hex_digit a, hex_digit b, hex_digit c, hex_digit d with
  | Some x, Some y, Some z, Some w => Some (((x * 16 + y) * 16 + z) * 16 + w)%N
  | _, _, _, _ => None
  end.

(** What a scanning function hands back: the value with the rest of the
    document, a [JSONDecodeError] (message and position), the scanner's
    [StopIteration] (position), or [Exhausted] when the recursion budget of
    the model is used up. *)
Inductive scan (A : Type) : Type :=
| Scanned (a : A) (rest : str)
| DecodeError (msg : string) (pos : nat)
| StopIteration (pos : nat)
| Exhausted.
Arguments Scanned {A} a rest.
Arguments DecodeError {A} msg pos.
Arguments StopIteration {A} pos.
Arguments Exhausted {A}.

Section Document.

(** The length of the document: the suffix [s] starts at index
    [at_ s]. *)
Variable doclen : nat.

Definition at_ (s : str) : nat := doclen - length s.

Definition backslash_escape (c : char) : option char :=
  if (c =? 34)%N then Some 34%N
  else if (c =? 92)%N then Some 92%N
  else if (c =? 47)%N then Some 47%N
  else if (c =? 98)%N then Some 8%N
  else if (c =? 102)%N then Some 12%N
  else if (c =? 110)%N then Some 10%N
  else if (c =? 114)%N then Some 13%N
  else if (c =? 116)%N then Some 9%N
  else None.

Definition is_high_surrogate (u : N) : bool := ((55296 <=? u) && (u <=? 56319))%N.
Definition is_low_surrogate (u : N) : bool := ((56320 <=? u) && (u <=? 57343))%N.
Definition join_surrogates (u u2 : N) : N :=
  (65536 + (N.lor (N.shiftl (u - 55296) 10) (u2 - 56320)))%N.

(** [scanstring_unicode(pystr, end, strict=1)]: [s] is the document after
    the opening quote, [begin] the index of that quote, [acc] the
    characters decoded so far, last first.  A [\u] escape needs its four
    hexadecimal digits and one more character after them; a high
    surrogate joins the low surrogate escaped right after it. *)
Fixpoint scanstring (begin : nat) (acc : str) (s : str) {struct s} : scan str :=
  match s with
  | [] => DecodeError "Unterminated string starting at" begin
  | c :: r =>
      if (c =? DQUOTE)%N then Scanned (rev acc) r
      else if (c =? BACKSLASH)%N then
        match r with
        | [] => DecodeError "Unterminated string starting at" begin
        | e :: r1 =>
            if (e =? 117)%N then
              match r1 with
              | h1 :: h2 :: h3 :: h4 :: ((b2 :: r3) as r2) =>
                  match hex4 h1 h2 h3 h4 with
                  | None => DecodeError "Invalid \uXXXX escape" (at_ r)
                  | Some u =>
                      if is_high_surrogate u && (b2 =? BACKSLASH)%N then
                        match r3 with
                        | e2 :: r4 =>
                            if (e2 =? 117)%N then
                              match r4 with
                              | g1 :: g2 :: g3 :: g4 :: ((_ :: _) as r5) =>
                                  match hex4 g1 g2 g3 g4 with
                                  | None =>
                                      DecodeError "Invalid \uXXXX escape" (at_ r3)
                                  | Some u2 =>
                                      if is_low_surrogate u2
                                      then scanstring begin
                                             (join_surrogates u u2 :: acc) r5
                                      else scanstring begin (u :: acc) r2
                                  end
                              | _ => DecodeError "Invalid \uXXXX escape" (at_ r3)
                              end
                            else scanstring begin (u :: acc) r2
                        | [] => scanstring begin (u :: acc) r2
                        end
                      else scanstring begin (u :: acc) r2
                  end
              | _ => DecodeError "Invalid \uXXXX escape" (at_ r)
              end
            else
              match backslash_escape e with
              | Some c' => scanstring begin (c' :: acc) r1
              | None => DecodeError "Invalid \escape" (at_ s)
              end
        end
      else if (c <=? 31)%N then DecodeError "Invalid control character at" (at_ s)
      else scanstring begin (c :: acc) r
  end.

(** The number syntax of [_match_number_unicode]: an optional minus
    sign; a zero, or a digit from 1 to 9 and any digits; then, each
    optional, a dot with at least one digit, and an [e] or [E] with an
    optional sign and at least one digit. *)
Fixpoint span_digits (s : str) : str * str :=
  match s with
  | c :: r =>
      if is_digit c then let (d, r') := span_digits r in (c :: d, r')
      else ([], s)
  | [] => ([], [])
  end.

Definition match_integer (s : str) : option (str * str) :=
  match s with
  | c :: r =>
      if (c =? 48)%N then Some ([c], r)
      else if is_digit c then
        let (d, r') := span_digits r in Some (c :: d, r')
      else None
  | [] => None
  end.

Definition match_frac (s : str) : str * str :=
  match s with
  | dot :: c :: r =>
      if ((dot =? 46) && is_digit c)%N then
        let (d, r') := span_digits r in (dot :: c :: d, r')
      else ([], s)
  | _ => ([], s)
  end.

Definition match_exp (s : str) : str * str :=
  match s with
  | e :: r =>
      if ((e =? 101) || (e =? 69))%N then
        let (sign, r1) :=
          match r with
          | sg :: r' => if ((sg =? 45) || (sg =? 43))%N then ([sg], r') else ([], r)
          | [] => ([], r)
          end in
        match span_digits r1 with
        | ([], _) => ([], s)
        | (d, r2) => (e :: sign ++ d, r2)
        end
      else ([], s)
  | [] => ([], s)
  end.

Definition digit_value (c : char) : Z := Z.of_N (c - 48).

(** [int(digits)] for a run of decimal digits. *)
Definition int_of_digits (d : str) : Z :=
  fold_left (fun acc c => (acc * 10 + digit_value c)%Z) d 0%Z.

Definition match_number (s : str) : scan pyvalue :=
  let (neg, s1) :=
    match s with
    | c :: r => if (c =? 45)%N then (true, r) else (false, s)
    | [] => (false, s)
    end in
  match match_integer s1 with
  | None => StopIteration (at_ s)
  | Some (int, s2) =>
      let (frac, s3) := match_frac s2 in
      let (exp, s4) := match_exp s3 in
      let sign := if neg then [45%N] else [] in
      match frac, exp with
      | [], [] =>
          Scanned (PInt (if neg then - int_of_digits int else int_of_digits int)%Z) s4
      | _, _ => Scanned (PFloat (sign ++ int ++ frac ++ exp)) s4
      end
  end.

(** [scan_once_unicode], [_parse_object_unicode] and
    [_parse_array_unicode].  [fuel] bounds the number of nested calls;
    [pairs_from] and [items_from] are the two [while (1)] loops, entered
    where the key, respectively the next item, is expected. *)
Fixpoint scan_once (fuel : nat) (s : str) {struct fuel} : scan pyvalue :=
  match fuel with
  | O => Exhausted
  | S fuel' =>
      match s with
      | [] => StopIteration (at_ s)
      | c :: r =>
          if (c =? DQUOTE)%N then
            match scanstring (at_ s) [] r with
            | Scanned v r' => Scanned (PStr v) r'
            | DecodeError m p => DecodeError m p
            | StopIteration p => StopIteration p
            | Exhausted => Exhausted
            end
          else if (c =? 123)%N then
            let r1 := skip_ws r in
            match r1 with
            | c1 :: r2 =>
                if (c1 =? 125)%N then Scanned (PDict []) r2
                else pairs_from fuel' [] r1
            | [] => pairs_from fuel' [] r1
            end
          else if (c =? 91)%N then
            let r1 := skip_ws r in
            match r1 with
            | c1 :: r2 =>
                if (c1 =? 93)%N then Scanned (PList []) r2
                else items_from fuel' [] r1
            | [] => items_from fuel' [] r1
            end
          else
            match strip_prefix (lit "null") s with
            | Some r' => Scanned PNone r'
            | None =>
            match strip_prefix (lit "true") s with
            | Some r' => Scanned (PBool true) r'
            | None =>
            match strip_prefix (lit "false") s with
            | Some r' => Scanned (PBool false) r'
            | None =>
            match strip_prefix (lit "NaN") s with
            | Some r' => Scanned (PFloat (lit "NaN")) r'
            | None =>
            match strip_prefix (lit "Infinity") s with
            | Some r' => Scanned (PFloat (lit "Infinity")) r'
            | None =>
            match strip_prefix (lit "-Infinity") s with
            | Some r' => Scanned (PFloat (lit "-Infinity")) r'
            | None => match_number s
            end end end end end end
      end
  end

with pairs_from (fuel : nat) (d : list (str * pyvalue)) (s : str)
       {struct fuel} : scan pyvalue :=
  match fuel with
  | O => Exhausted
  | S fuel' =>
      match s with
      | q :: r =>
          if (q =? DQUOTE)%N then
            match scanstring (at_ s) [] r with
            | Scanned key r1 =>
                let r2 := skip_ws r1 in
                match r2 with
                | colon :: r3 =>
                    if (colon =? 58)%N then
                      match scan_once fuel' (skip_ws r3) with
                      | Scanned val r4 =>
                          let d' := dict_set d key val in
                          let r5 := skip_ws r4 in
                          match r5 with
                          | c :: r6 =>
                              if (c =? 125)%N then Scanned (PDict d') r6
                              else if (c =? 44)%N then pairs_from fuel' d' (skip_ws r6)
                              else DecodeError "Expecting ',' delimiter" (at_ r5)
                          | [] => DecodeError "Expecting ',' delimiter" (at_ r5)
                          end
                      | other => other
                      end
                    else DecodeError "Expecting ':' delimiter" (at_ r2)
                | [] => DecodeError "Expecting ':' delimiter" (at_ r2)
                end
            | DecodeError m p => DecodeError m p
            | StopIteration p => StopIteration p
            | Exhausted => Exhausted
            end
          else DecodeError "Expecting property name enclosed in double quotes" (at_ s)
      | [] => DecodeError "Expecting property name enclosed in double quotes" (at_ s)
      end
  end

with items_from (fuel : nat) (acc : list pyvalue) (s : str)
       {struct fuel} : scan pyvalue :=
  match fuel with
  | O => Exhausted
  | S fuel' =>
      match scan_once fuel' s with
      | Scanned val r1 =>
          let r2 := skip_ws r1 in
          match r2 with
          | c :: r3 =>
              if (c =? 93)%N then Scanned (PList (rev (val :: acc))) r3
              else if (c =? 44)%N then items_from fuel' (val :: acc) (skip_ws r3)
              else DecodeError "Expecting ',' delimiter" (at_ r2)
          | [] => DecodeError "Expecting ',' delimiter" (at_ r2)
          end
      | other => other
      end
  end.

End Document.

(** [JSONDecoder.decode] under [json.loads]: leading whitespace, one value,
    trailing whitespace, nothing else.  A [StopIteration] of the scanner
    becomes "Expecting value".  CPython bounds the nesting of a document by
    the recursion limit of the interpreter; the model has no such limit: the
    scanner is given a budget of twice the length of the document plus one,
    which no document uses up (lemma [scan_once_budget] below). *)
Definition loads (s : str) : py_result pyvalue :=
  if startswith s [65279%N]
  then Raise (JSONDecodeError "Unexpected UTF-8 BOM (decode using utf-8-sig)" s 0)
  else
    let n := length s in
    match scan_once n (2 * n + 1) (skip_ws s) with
    | Scanned v r =>
        match skip_ws r with
        | [] => Return v
        | (_ :: _) as r' => Raise (JSONDecodeError "Extra data" s (at_ n r'))
        end
    | DecodeError m p => Raise (JSONDecodeError m s p)
    | StopIteration p => Raise (JSONDecodeError "Expecting value" s p)
    | Exhausted => Raise RecursionError
    end.

(** What a scanning function must not do: use the budget up, or hand back
    more text than it was given. *)
Definition sound {A} (s : str) (r : scan A) : Prop :=
  match r with
  | Scanned _ rest => length rest < length s
  | Exhausted => False
  | _ => True
  end.

(** [str(e)] for a [JSONDecodeError]:
    ['%s: line %d column %d (char %d)' % (msg, lineno, colno, pos)]. *)
Definition lineno (doc : str) (pos : nat) : nat :=
  S (count_occ N.eq_dec (firstn pos doc) LF).

Fixpoint since_newline (rev_prefix : str) : nat :=
  match rev_prefix with
  | [] => 0
  | c :: r => if (c =? LF)%N then 0 else S (since_newline r)
  end.

Definition colno (doc : str) (pos : nat) : nat :=
  S (since_newline (rev (firstn pos doc))).

End Json.

(** [str(e)] *)
Definition exn_str (e : exn) : str :=
  match e with
  | JSONDecodeError msg doc pos =>
      lit msg ++ lit ": line " ++ str_of_nat (Json.lineno doc pos)
        ++ lit " column " ++ str_of_nat (Json.colno doc pos)
        ++ lit " (char " ++ str_of_nat pos ++ lit ")"
  | RecursionError => lit "maximum recursion depth exceeded"
  | OSError what => lit what
  end.

(** ** [re.findall] for the pattern of [parse_llm_output] *)

Module Re.

(** What follows the captured object: [\s*] and the closing fence.  [\s*]
    is greedy and the fence starts with a character that is not white
    space, so giving white space back never helps: the match takes all of
    it. *)
Definition closing_fence (s : str) : option str :=
  strip_prefix (lit "```") (lstrip s).

(** [.*?\}\s*```] with [re.DOTALL], on the text after the opening brace:
    the shortest run of characters, line feeds included, after which a
    closing brace, white space and the fence follow.  Returns the run with
    its closing brace and the text after the match. *)
Fixpoint lazy_body (s : str) : option (str * str) :=
  match s with
  | [] => None
  | c :: r =>
      match (if (c =? 125)%N then closing_fence r else None) with
      | Some rest => Some ([c], rest)
      | None =>
          match lazy_body r with
          | Some (body, rest) => Some (c :: body, rest)
          | None => None
          end
      end
  end.

(** One attempt to match [```json\s*(\{.*?\})\s*```] at the head of [s]:
    group 1 and the text after the match. *)
Definition match_here (s : str) : option (str * str) :=
  match strip_prefix (lit "```json") s with
  | None => None
  | Some r =>
      match lstrip r with
      | c :: r' =>
          if (c =? 123)%N then
            match lazy_body r' with
            | Some (body, rest) => Some (c :: body, rest)
            | None => None
            end
          else None
      | [] => None
      end
  end.

(** [re.findall(pattern, s, re.DOTALL)]: the matches are searched from left
    to right and do not overlap.  [skip] counts the characters of the last
    match that are still to be passed over. *)
Fixpoint findall_from (skip : nat) (s : str) : list str :=
  match s with
  | [] => []
  | _ :: r =>
      match skip with
      | S k => findall_from k r
      | O =>
          match match_here s with
          | Some (group, rest) => group :: findall_from (length r - length rest) r
          | None => findall_from 0 r
          end
      end
  end.

Definition findall (s : str) : list str := findall_from 0 s.

End Re.

(** ** [textwrap.dedent] *)

Module Textwrap.

(** The class [[ \t]]. *)
Definition is_blank (c : char) : bool := ((c =? 32) || (c =? 9))%N.

(** [_whitespace_only_re.sub('', text)], on one line: a line of blanks
    only becomes empty. *)
Definition normalize (line : str) : str :=
  if forallb is_blank line then [] else line.

(** Group 1 of [_leading_whitespace_re]: the blanks a line starts with. *)
Fixpoint indent_of (line : str) : str :=
  match line with
  | c :: r => if is_blank c then c :: indent_of r else []
  | [] => []
  end.

(** [_leading_whitespace_re.findall(text)]: the indent of every line that
    has a character other than a blank. *)
Definition indents (lines : list str) : list str :=
  map indent_of (filter (fun l => negb (forallb is_blank l)) lines).

(** [margin[:i]] for the first [i] at which the two differ. *)
Fixpoint common_prefix (a b : str) : str :=
  match a, b with
  | x :: a', y :: b' => if (x =? y)%N then x :: common_prefix a' b' else []
  | _, _ => []
  end.

(** One turn of [for indent in indents]. *)
Definition update_margin (margin : option str) (indent : str) : option str :=
  match margin with
  | None => Some indent
  | Some m =>
      if startswith indent m then Some m
      else if startswith m indent then Some indent
      else Some (common_prefix m indent)
  end.

(** [re.sub(r'(?m)^' + margin, '', text)], on one line. *)
Definition remove_margin (margin line : str) : str :=
  match strip_prefix margin line with
  | Some rest => rest
  | None => line
  end.

(** The two regular expressions work line by line ([^] and [$] are taken
    at line feeds only), so the text is handled as its list of lines. *)
Definition dedent (text : str) : str :=
  let lines := map normalize (split LF text) in
  let margin := fold_left update_margin (indents lines) None in
  match margin with
  | Some ((_ :: _) as m) => join [LF] (map (remove_margin m) lines)
  | _ => join [LF] lines
  end.

(** The lines of the template and of the note after [dedent], for a
    margin [m] that is a part [INDENT = m ++ r] of the template's indent. *)
Definition shift (m line : str) : str := remove_margin m (normalize line).

End Textwrap.

(** ** [csv.writer], default dialect *)

Module Csv.

Section Writer.

(** [repr()] of a float, given the text it was read from, and [repr()]
    of a string. *)
Variable float_repr : str -> str.
Variable str_repr : str -> str.

Fixpoint py_repr (v : pyvalue) : str :=
  match v with
  | PNone => lit "None"
  | PBool true => lit "True"
  | PBool false => lit "False"
  | PInt z => str_of_Z z
  | PFloat lexeme => float_repr lexeme
  | PStr s => str_repr s
  | PList items => lit "[" ++ join (lit ", ") (map py_repr items) ++ lit "]"
  | PDict pairs =>
      lit "{"
        ++ join (lit ", ")
             (map (fun kv => str_repr (fst kv) ++ lit ": "
                               ++ (let (_, x) := kv in py_repr x)) pairs)
        ++ lit "}"
  end.

(** The text of a field: a string as it is, [None] as the empty string,
    anything else through [str()]. *)
Definition field_text (v : pyvalue) : str :=
  match v with
  | PStr s => s
  | PNone => []
  | _ => py_repr v
  end.

(** [QUOTE_MINIMAL]: a field is quoted when it holds the delimiter, the
    quote character or a character of the line terminator. *)
Definition special (c : char) : bool :=
  ((c =? 44) || (c =? DQUOTE) || (c =? CR) || (c =? LF))%N.

Definition double_quotes (f : str) : str :=
  flat_map (fun c => if (c =? DQUOTE)%N then [DQUOTE; DQUOTE] else [c]) f.

Definition render_field (f : str) : str :=
  if existsb special f then DQUOTE :: double_quotes f ++ [DQUOTE] else f.

(** [writer.writerow(row)]: the line written.  A row of one empty field
    is written as two quote characters. *)
Definition writerow (row : list pyvalue) : str :=
  match map field_text row with
  | [[]] => [DQUOTE; DQUOTE; CR; LF]
  | fields => join (lit ",") (map render_field fields) ++ [CR; LF]
  end.

End Writer.

End Csv.

(** ** The environment of the core *)

(** What [subprocess.run] hands back when the process was started. *)
Record completed_process : Type := CompletedProcess {
  returncode : Z;
  stdout : str;
  stderr : str
}.

(** The environment of one run.
    - [subprocess_run n prompt]: the [n]-th call of [subprocess.run] (counted
      from 0), on [prompt]; it raises [OSError] when the process cannot be
      started.
    - [observer i]: whether the observer thread has written
      [cancel_requested = True] by the time the worker tests the flag for
      the [i]-th time (before record [i], counted from 0).
    - [can_open path]: whether [open(path, "w")] succeeds. *)
Record env : Type := Env {
  subprocess_run : nat -> str -> py_result completed_process;
  observer : nat -> bool;
  can_open : str -> bool
}.

(** The files written so far, path and content, and [outfile.write] on a
    freshly truncated file. *)
Definition files := list (str * str).

Fixpoint write_file (fs : files) (path content : str) : files :=
  match fs with
  | [] => [(path, content)]
  | (p, c) :: fs' =>
      if str_eqb p path then (p, content) :: fs'
      else (p, c) :: write_file fs' path content
  end.


(** ** [AIProcessingCore] *)

Record core : Type := Core {
  output_path : str;
  results : list (str * pyvalue);
  rows_processed : nat;
  total_rows : nat;
  cancel_requested : bool;
  processing_done : bool
}.

(** [AIProcessingCore.__init__] *)
Definition __init__ (output_path : str) : core :=
  {| output_path := output_path;
     results := [];
     rows_processed := 0;
     total_rows := 0;
     cancel_requested := false;
     processing_done := false |}.

(** The text of the f-string of [build_prompt] before and after
    [{prompt_text}]. *)
Definition INDENT : str := lit "            ".

Definition prompt_head : str :=
  [LF]
    ++ INDENT ++ lit "<|im_start|>system" ++ [LF]
    ++ INDENT ++ lit "You are a helpful auditing assistant with extensive aged care nursing experience and care about elderly people<|im_end|>" ++ [LF] ++ [LF]
    ++ INDENT ++ lit "<|im_start|>user" ++ [LF]
    ++ INDENT ++ lit "Please check this progress note for evidence of falls." ++ [LF]
    ++ INDENT ++ lit "Your response will be in JSON format with 'true' where there is evidence and 'false' where there is not evidence." ++ [LF]
    ++ INDENT ++ lit "Here is the note: ".

Definition prompt_tail : str :=
  [LF]
    ++ INDENT ++ lit "Example reply format: ```json{" ++ quoted "falls" ++ lit ": "
    ++ quoted "true/false" ++ lit "}```<|im_end|>" ++ [LF] ++ [LF]
    ++ [LF]
    ++ INDENT ++ lit "<|im_start|>assistant".

(** [AIProcessingCore.build_prompt] *)
Definition build_prompt (prompt_text : str) : str :=
  let whole_prompt := Textwrap.dedent (prompt_head ++ prompt_text ++ prompt_tail) in
  whole_prompt.

(** The state of a run: the core object and, as a record of what the run
    did, the prompts [call_llm] was given, oldest first. *)
Record state : Type := State {
  self : core;
  invocations : list str
}.

(** [AIProcessingCore.call_llm] *)
Definition call_llm (E : env) (st : state) (prompt : str) : py_result str * state :=
  let st' := {| self := self st; invocations := invocations st ++ [prompt] |} in
  match subprocess_run E (length (invocations st)) prompt with
  | Raise e => (Raise e, st')
  | Return result =>
      if negb (returncode result =? 0)%Z
      then (Return (lit "Error: LLM execution failed. " ++ stderr result), st')
      else (Return (match stdout result with
                    | [] => []
                    | _ :: _ => strip (stdout result)
                    end), st')
  end.

(** [AIProcessingCore.parse_llm_output] *)
Definition parse_llm_output (llm_output : str) : py_result pyvalue :=
  match llm_output with
  | [] => Return (PStr (lit "Error: No response from model"))
  | _ :: _ =>
      let matches := Re.findall llm_output in
      match matches with
      | _ :: _ =>
          let json_text := last matches [] in
          match Json.loads json_text with
          | Return v => Return v
          | Raise (JSONDecodeError _ _ _ as e) =>
              Return (PStr (lit "Error parsing JSON: " ++ exn_str e))
          | Raise e => Raise e
          end
      | [] => Return (PStr (lit "No JSON found in response"))
      end
  end.

(** [self.results.append(entry); self.rows_processed += 1] *)
Definition record_result (st : state) (entry : str * pyvalue) : state :=
  let c := self st in
  {| self := {| output_path := output_path c;
                results := results c ++ [entry];
                rows_processed := S (rows_processed c);
                total_rows := total_rows c;
                cancel_requested := cancel_requested c;
                processing_done := processing_done c |};
     invocations := invocations st |}.

(** How one turn of the loop of [process_rows] ends: the next record is
    due, or an exception leaves the method. *)
Inductive turn : Type :=
| Next (st : state)
| Throw (e : exn) (st : state).

(** The body of [for row in rows], after the test of [cancel_requested]. *)
Definition process_row (E : env) (st : state) (row : list str) : turn :=
  let prompt_text := strip (join (lit " ") row) in
  match prompt_text with
  | [] => Next (record_result st ([], PStr []))
  | _ :: _ =>
      let prompt_str := build_prompt prompt_text in
      match call_llm E st prompt_str with
      | (Raise e, st1) => Throw e st1
      | (Return llm_output, st1) =>
          if startswith llm_output (lit "Error: LLM execution failed.")
          then Next (record_result st1 (prompt_text, PStr llm_output))
          else
            match parse_llm_output llm_output with
            | Raise e => Throw e st1
            | Return parsed_answer => Next (record_result st1 (prompt_text, parsed_answer))
            end
      end
  end.

(** The observer's write to [cancel_requested], as the worker sees it when
    it tests the flag for the [i]-th time. *)
Definition observe (E : env) (i : nat) (st : state) : state :=
  let c := self st in
  {| self := {| output_path := output_path c;
                results := results c;
                rows_processed := rows_processed c;
                total_rows := total_rows c;
                cancel_requested := cancel_requested c || observer E i;
                processing_done := processing_done c |};
     invocations := invocations st |}.

(** How a method ends. *)
Inductive outcome : Type :=
| Done (st : state)
| Raised (e : exn) (st : state).

(** [for row in rows: if self.cancel_requested: break ...], from record
    [i] on.  Next to the outcome, the core as it is at every record boundary
    the loop comes to: at the test of the flag, and where the loop ends. *)
Fixpoint for_rows (E : env) (i : nat) (rows : list (list str)) (st : state)
  : list core * outcome :=
  match rows with
  | [] => ([self st], Done st)
  | row :: rest =>
      let st0 := observe E i st in
      if cancel_requested (self st0) then ([self st0], Done st0)
      else
        match process_row E st0 row with
        | Throw e st1 => ([self st0], Raised e st1)
        | Next st1 =>
            let (boundaries, o) := for_rows E (S i) rest st1 in
            (self st0 :: boundaries, o)
        end
  end.

Definition begin_run (rows : list (list str)) (st : state) : state :=
  let c := self st in
  {| self := {| output_path := output_path c;
                results := results c;
                rows_processed := 0;
                total_rows := length rows;
                cancel_requested := cancel_requested c;
                processing_done := processing_done c |};
     invocations := invocations st |}.

Definition end_run (st : state) : state :=
  let c := self st in
  {| self := {| output_path := output_path c;
                results := results c;
                rows_processed := rows_processed c;
                total_rows := total_rows c;
                cancel_requested := cancel_requested c;
                processing_done := true |};
     invocations := invocations st |}.

(** [AIProcessingCore.process_rows]: the cores seen from the call to the end
    of the method, one per record boundary, and the outcome. *)
Definition process_rows (E : env) (rows : list (list str)) (st : state)
  : list core * outcome :=
  let (boundaries, o) := for_rows E 0 rows (begin_run rows st) in
  match o with
  | Done st1 => (self st :: boundaries ++ [self (end_run st1)], Done (end_run st1))
  | Raised e st1 => (self st :: boundaries, Raised e st1)
  end.

(** A run starts on a core fresh from the constructor, as
    [start_processing] makes it. *)
Definition fresh (output_path : str) : state :=
  {| self := __init__ output_path; invocations := [] |}.

Section Sink.

Variable float_repr : str -> str.
Variable str_repr : str -> str.

(** The row [save_results] writes for one result. *)
Definition result_row (entry : str * pyvalue) : list pyvalue :=
  let (prompt, response) := entry in
  let final_answer :=
    match response with
    | PDict d =>
        match dict_get d (lit "falls") with
        | Some v => v
        | None => response
        end
    | _ => response
    end in
  [PStr prompt; final_answer].

(** The text [save_results] writes to the file. *)
Definition report (rs : list (str * pyvalue)) : str :=
  Csv.writerow float_repr str_repr [PStr (lit "Progres note"); PStr (lit "Falls Detected?")]
    ++ concat (map (fun entry => Csv.writerow float_repr str_repr (result_row entry)) rs).

(** [AIProcessingCore.save_results] *)
Definition save_results (E : env) (c : core) (fs : files) : py_result files :=
  match output_path c with
  | [] => Return fs
  | _ :: _ =>
      if can_open E (output_path c)
      then Return (write_file fs (output_path c) (report (results c)))
      else Raise (OSError "open")
  end.

End Sink.

(** ** Notions the properties are stated with *)



Definition all_space (ws : str) : Prop := forallb isspace ws = true.

(** A fenced code block tagged as JSON, in the words of the specification:
    the fence marker with [json], a brace-delimited object, and a closing
    fence, with white space allowed around the object. *)
Definition fenced_json_block (s : str) : Prop :=
  exists before ws1 inner ws2 after,
    all_space ws1 /\ all_space ws2
    /\ s = before ++ lit "```json" ++ ws1 ++ [123%N] ++ inner ++ [125%N]
              ++ ws2 ++ lit "```" ++ after.


(** A JSON fence around [body]. *)
Definition fence (body : str) : str := lit "```json" ++ body ++ lit "```".

Definition FALLS_TRUE : str := lit "{" ++ quoted "falls" ++ lit ":" ++ quoted "true" ++ lit "}".

(** [c] does not occur in [s]. *)
Definition free_of (c : char) (s : str) : Prop :=
  forallb (fun x => negb (x =? c)%N) s = true.

(** The Verdict shapes of the specification: a structured object, or a
    string (a diagnostic of the extractor or the error text of the
    invocation). *)
Inductive verdict : pyvalue -> Prop :=
| verdict_object (d : list (str * pyvalue)) : verdict (PDict d)
| verdict_string (s : str) : verdict (PStr s).



(** The invariant of the run state at a record boundary. *)
Definition run_invariant (c : core) : Prop :=
  rows_processed c <= total_rows c /\ length (results c) = rows_processed c.

(** [rows_processed] does not decrease from one core to a later one. *)
Definition progress_le (c c' : core) : Prop := rows_processed c <= rows_processed c'.

(** The observer never asks for cancellation. *)
Definition no_cancel (E : env) : Prop := forall i, observer E i = false.


(** The joined text of a record, as [process_rows] computes it. *)
Definition record_text (row : list str) : str := strip (join (lit " ") row).

(** The entry a record gets in the result list: its text and a Verdict. *)
Definition recorded (row : list str) (entry : str * pyvalue) : Prop :=
  fst entry = record_text row /\ verdict (snd entry).

Definition state_of (o : outcome) : state :=
  match o with Done st | Raised _ st => st end.

(** ** Environments and inputs of the examples *)

(** The process exits with 0 and prints [out], whatever the prompt. *)
Definition answering (out : str) : env :=
  {| subprocess_run := fun _ _ => Return (CompletedProcess 0 out []);
     observer := fun _ => false;
     can_open := fun _ => true |}.

(** As [E], with the observer cancelling once [k] records are done. *)
Definition cancel_after (k : nat) (E : env) : env :=
  {| subprocess_run := subprocess_run E;
     observer := fun i => k <=? i;
     can_open := can_open E |}.


Definition REPLY_TRUE : str := lit "Sure. " ++ fence FALLS_TRUE.

Definition five_records : list (list str) :=
  [[lit "Resident found on floor"]; [lit "Ate well"; lit "no concerns"];
   [lit "Slipped in bathroom"]; [lit "Slept well"]; [lit "Visited by family"]].

Definition four_records : list (list str) :=
  [[lit "Resident found on floor"]; [[]; lit "  "];
   [lit "Slipped in bathroom"]; [lit "Slept well"]].

Definition OUT : str := lit "report.csv".


(** The run of the example of cancellation: five records, cancellation
    asked for once three are done; and the loop over the first three. *)
Definition cancelling_env : env := cancel_after 3 (answering REPLY_TRUE).

Definition three_done : list core * outcome :=
  Eval vm_compute in
    for_rows cancelling_env 0 (firstn 3 five_records) (begin_run five_records (fresh OUT)).

(** The run of the example of the empty record, after its first record. *)
Definition one_done : state :=
  Eval vm_compute in
    state_of (snd (for_rows (answering REPLY_TRUE) 0 (firstn 1 four_records)
                     (begin_run four_records (fresh OUT)))).



(** The example of the specification for the Result Sink. *)
Definition example_results : list (str * pyvalue) :=
  [(lit "note A", PDict [(lit "falls", PStr (lit "true"))]);
   (lit "note B", PStr (lit "No JSON found in response"))].

Definition example_report : str :=
  lit "Progres note,Falls Detected?" ++ [CR; LF]
    ++ lit "note A,true" ++ [CR; LF]
    ++ lit "note B,No JSON found in response" ++ [CR; LF].

Definition example_core : core :=
  {| output_path := OUT;
     results := example_results;
     rows_processed := 2;
     total_rows := 2;
     cancel_requested := false;
     processing_done := true |}.




(** The lines of the f-string of [build_prompt] around the line of the
    note. *)
Definition head_lines : list str :=
  [ [];
    INDENT ++ lit "<|im_start|>system";
    INDENT ++ lit "You are a helpful auditing assistant with extensive aged care nursing experience and care about elderly people<|im_end|>";
    [];
    INDENT ++ lit "<|im_start|>user";
    INDENT ++ lit "Please check this progress note for evidence of falls.";
    INDENT ++ lit "Your response will be in JSON format with 'true' where there is evidence and 'false' where there is not evidence." ].

Definition NOTE_LINE : str := INDENT ++ lit "Here is the note: ".

Definition tail_lines : list str :=
  [ INDENT ++ lit "Example reply format: ```json{" ++ quoted "falls" ++ lit ": "
      ++ quoted "true/false" ++ lit "}```<|im_end|>";
    [];
    [];
    INDENT ++ lit "<|im_start|>assistant" ].



(** What holds of a core the loop comes to, when the loop was entered in
    [st] with [todo] records left. *)
Definition within (st : state) (todo : nat) (c : core) : Prop :=
  rows_processed (self st) <= rows_processed c
  /\ rows_processed c <= rows_processed (self st) + todo
  /\ total_rows c = total_rows (self st)
  /\ length (results c) = rows_processed c.

(** ** [AIProcessingGUI]: the callers of the core *)






(** [AIProcessingGUI.request_cancel], given the answer to the question box
    (asked only when there is a core). *)
Definition request_cancel (core_ : option core) (confirmed : bool) : option core :=
  match core_ with
  | Some c =>
      if confirmed
      then Some {| output_path := output_path c;
                   results := results c;
                   rows_processed := rows_processed c;
                   total_rows := total_rows c;
                   cancel_requested := true;
                   processing_done := processing_done c |}
      else Some c
  | None => None
  end.

(** How the worker thread of [run_core_logic] ends: there was no core, the
    two calls returned, or an exception ended the thread. *)
Inductive thread_end : Type :=
| NoCore (fs : files)
| Finished (st : state) (fs : files)
| Died (e : exn) (st : state) (fs : files).

Section Worker.

Variable float_repr : str -> str.
Variable str_repr : str -> str.

(** [AIProcessingGUI.run_core_logic] *)
Definition run_core_logic (E : env) (core_ : option state) (rows : list (list str))
  (fs : files) : thread_end :=
  match core_ with
  | None => NoCore fs
  | Some st =>
      match snd (process_rows E rows st) with
      | Raised e st1 => Died e st1 fs
      | Done st1 =>
          match save_results float_repr str_repr E (self st1) fs with
          | Return fs1 => Finished st1 fs1
          | Raise e => Died e st1 fs
          end
      end
  end.

End Worker.

(** The widgets of the progress window that [update_progress] writes. *)
Record progress_window : Type := ProgressWindow {
  progress_label : str;
  progress_bar_value : nat;
  progress_bar_maximum : nat;
  open_file_btn_enabled : bool
}.

(** The window as [open_progress_window] builds it. *)
Definition open_progress_window (rows : list (list str)) : progress_window :=
  {| progress_label := lit "Starting...";
     progress_bar_value := 0;
     progress_bar_maximum := length rows;
     open_file_btn_enabled := false |}.

Definition DONE_LABEL : str := lit "Done. The AI has reviewed the progress notes.".

(** [AIProcessingGUI.update_progress]: the window after the call, and
    whether the method asked to be called again ([after(500, ...)]). *)
Definition update_progress (core_ : option core) (rows : list (list str))
  (w : progress_window) : progress_window * bool :=
  match core_ with
  | None =>
      ({| progress_label := lit "No core logic yet.";
          progress_bar_value := progress_bar_value w;
          progress_bar_maximum := progress_bar_maximum w;
          open_file_btn_enabled := open_file_btn_enabled w |}, true)
  | Some c =>
      let total_rows := length rows in
      let status_text :=
        lit "Processed " ++ str_of_nat (rows_processed c) ++ lit "/"
          ++ str_of_nat total_rows ++ lit " lines"
          ++ (if cancel_requested c then lit " (Cancel requested...)" else []) in
      let label := if 0 <? total_rows then status_text else lit "Reading file..." in
      if processing_done c
         && ((rows_processed c =? total_rows) || cancel_requested c)
      then ({| progress_label := DONE_LABEL;
               progress_bar_value := rows_processed c;
               progress_bar_maximum := progress_bar_maximum w;
               open_file_btn_enabled := true |}, false)
      else ({| progress_label := label;
               progress_bar_value := rows_processed c;
               progress_bar_maximum := progress_bar_maximum w;
               open_file_btn_enabled := open_file_btn_enabled w |}, true)
  end.

(** The prompt of a one-line note: the template without its indent. *)
Definition PROMPT_BEFORE_NOTE : str :=
  [LF]
    ++ lit "<|im_start|>system" ++ [LF]
    ++ lit "You are a helpful auditing assistant with extensive aged care nursing experience and care about elderly people<|im_end|>" ++ [LF] ++ [LF]
    ++ lit "<|im_start|>user" ++ [LF]
    ++ lit "Please check this progress note for evidence of falls." ++ [LF]
    ++ lit "Your response will be in JSON format with 'true' where there is evidence and 'false' where there is not evidence." ++ [LF]
    ++ lit "Here is the note: ".

Definition PROMPT_AFTER_NOTE : str :=
  [LF]
    ++ lit "Example reply format: ```json{" ++ quoted "falls" ++ lit ": "
    ++ quoted "true/false" ++ lit "}```<|im_end|>" ++ [LF] ++ [LF]
    ++ [LF]
    ++ lit "<|im_start|>assistant".

(** A character a JSON string holds as it is, and that does not close the
    object or the fence: not a control character, a double quote, a
    backslash, a closing brace or a backtick. *)
Definition plain (c : char) : bool :=
  negb ((c <=? 31) || (c =? DQUOTE) || (c =? BACKSLASH) || (c =? 125) || (c =? BACKTICK))%N.

(** The object [{"key": "value"}], written as the prompt asks for it. *)
Definition json_pair (key value : str) : str :=
  lit "{" ++ [DQUOTE] ++ key ++ [DQUOTE] ++ lit ": " ++ [DQUOTE] ++ value ++ [DQUOTE] ++ lit "}".

Definition ERROR_PREFIX : str := lit "Error: LLM execution failed.".

(** Environments and inputs of further examples. *)
Definition exiting (code : Z) (out err : str) : env :=
  {| subprocess_run := fun _ _ => Return (CompletedProcess code out err);
     observer := fun _ => false;
     can_open := fun _ => true |}.

(** The process starts for the first [n] invocations only. *)
Definition failing_from (n : nat) (out : str) : env :=
  {| subprocess_run := fun i _ =>
       if i <? n then Return (CompletedProcess 0 out [])
       else Raise (OSError "cannot start the inference process");
     observer := fun _ => false;
     can_open := fun _ => true |}.



(** [bool(s)]: a string is true when it is not empty. *)
Definition nonempty (s : str) : bool :=
  match s with [] => false | _ :: _ => true end.


(** A line that is empty or has a character other than a blank. *)
Definition not_only_blanks (line : str) : Prop :=
  line = [] \/ forallb Textwrap.is_blank line = false.

(** A line that starts with a character other than a blank. *)
Definition starts_unindented (line : str) : Prop :=
  match line with
  | c :: _ => Textwrap.is_blank c = false
  | [] => False
  end.

(** * Properties *)

(** ** Lists and strings *)

Lemma strip_prefix_app (p s r : str) :
  strip_prefix p s = Some r -> s = p ++ r.
Proof.
  revert s; induction p as [|a p IH]; intros [|b s] H; simpl in *;
    try discriminate; try (inversion H; reflexivity).
  destruct (N.eqb_spec a b); [|discriminate].
  subst; f_equal; auto.
Qed.

Lemma strip_prefix_complete (p r : str) : strip_prefix p (p ++ r) = Some r.
Proof.
  induction p as [|a p IH]; simpl; [destruct r; reflexivity|].
  rewrite N.eqb_refl; exact IH.
Qed.

Lemma strip_prefix_length (p s r : str) :
  strip_prefix p s = Some r -> length s = length p + length r.
Proof.
  intros H; apply strip_prefix_app in H; subst; apply length_app.
Qed.

Lemma lstrip_length (s : str) : length (lstrip s) <= length s.
Proof.
  induction s as [|c s IH]; simpl; [lia|].
  destruct (isspace c); simpl; lia.
Qed.

(** ** The scanner of [json.loads] never uses up its budget *)

Module JsonFacts.
Import Json.

Lemma skip_ws_length (s : str) : length (skip_ws s) <= length s.
Proof.
  induction s as [|c s IH]; simpl; [lia|].
  destruct (is_ws c); simpl; lia.
Qed.

Lemma sound_weaken {A} (s s' : str) (r : scan A) :
  length s <= length s' -> sound s r -> sound s' r.
Proof. destruct r; simpl; intros; auto; lia. Qed.

Lemma scanstring_sound (n begin : nat) (s : str) :
  forall acc, sound (DQUOTE :: s) (scanstring n begin acc s).
Proof.
  remember (length s) as k eqn:Hk.
  assert (Hle : length s <= k) by lia. clear Hk.
  revert s Hle.
  induction k as [|k IH]; intros s Hle acc.
  - destruct s; [exact I | simpl in Hle; lia].
  - destruct s as [|c r]; [exact I|].
    simpl in Hle.
    assert (step : forall r' acc', length r' <= length r ->
              sound (DQUOTE :: c :: r) (scanstring n begin acc' r')).
    { intros r' acc' Hr'.
      apply (sound_weaken (DQUOTE :: r')); [simpl; lia|].
      apply IH; lia. }
    simpl scanstring.
    repeat match goal with
      | |- sound _ (if ?b then _ else _) => destruct b
      | |- sound _ (match ?x with _ => _ end) => destruct x
      | |- sound _ (scanstring _ _ _ _) => apply step; simpl; lia
      | |- sound _ (Scanned _ _) => simpl; lia
      | |- sound _ (DecodeError _ _) => exact I
      end.
Qed.

Lemma span_digits_length (s : str) : length (snd (span_digits s)) <= length s.
Proof.
  induction s as [|c s IH]; simpl; [lia|].
  destruct (is_digit c); [|simpl; lia].
  destruct (span_digits s); simpl in *; lia.
Qed.

Lemma match_integer_length (s d r : str) :
  match_integer s = Some (d, r) -> length r < length s.
Proof.
  destruct s as [|c s]; simpl; [discriminate|].
  destruct (c =? 48)%N; [intros H; inversion H; subst; simpl; lia|].
  destruct (is_digit c); [|discriminate].
  pose proof (span_digits_length s) as Hs.
  destruct (span_digits s); intros H; inversion H; subst; simpl in *; lia.
Qed.

Lemma match_frac_length (s : str) : length (snd (match_frac s)) <= length s.
Proof.
  destruct s as [|dot [|c r]]; simpl; try lia.
  destruct ((dot =? 46)%N && is_digit c); [|simpl; lia].
  pose proof (span_digits_length r).
  destruct (span_digits r); simpl in *; lia.
Qed.

Lemma match_exp_length (s : str) : length (snd (match_exp s)) <= length s.
Proof.
  destruct s as [|e r]; simpl; [lia|].
  destruct ((e =? 101) || (e =? 69))%N; [|simpl; lia].
  destruct r as [|sg r']; [simpl; lia|].
  destruct ((sg =? 45) || (sg =? 43))%N.
  - pose proof (span_digits_length r').
    destruct (span_digits r') as [[|] ?]; simpl in *; lia.
  - pose proof (span_digits_length (sg :: r')).
    destruct (span_digits (sg :: r')) as [[|] ?]; simpl in *; lia.
Qed.

Lemma match_number_sound (n : nat) (s : str) : sound s (match_number n s).
Proof.
  unfold match_number.
  set (p := match s with
            | c :: r => if (c =? 45)%N then (true, r) else (false, s)
            | [] => (false, s)
            end).
  assert (Hp : length (snd p) <= length s).
  { subst p; destruct s as [|c r]; simpl; [lia|].
    destruct (c =? 45)%N; simpl; lia. }
  destruct p as [neg s1]; simpl in Hp.
  destruct (match_integer s1) as [[int s2]|] eqn:Hint; [|exact I].
  apply match_integer_length in Hint.
  pose proof (match_frac_length s2) as Hf.
  destruct (match_frac s2) as [frac s3]; simpl in Hf.
  pose proof (match_exp_length s3) as He.
  destruct (match_exp s3) as [exp s4]; simpl in He.
  destruct frac, exp; simpl; lia.
Qed.

Lemma literal_shorter (p : string) (s r : str) :
  lit p <> [] -> strip_prefix (lit p) s = Some r -> length r < length s.
Proof.
  intros Hp H; apply strip_prefix_length in H.
  destruct (lit p); [congruence | simpl in H; lia].
Qed.

(** With a budget above twice the length of the text, [scan_once] and the
    two loops it enters come back before the budget is used up, and what
    they leave is shorter than the text. *)
Lemma scan_once_budget (n : nat) :
  forall fuel s,
    (2 * length s < fuel -> sound (DQUOTE :: s) (scan_once n fuel s))
    /\ (2 * length s + 1 < fuel ->
        forall d, sound (DQUOTE :: s) (pairs_from n fuel d s))
    /\ (2 * length s + 1 < fuel ->
        forall acc, sound (DQUOTE :: s) (items_from n fuel acc s)).
Proof.
  induction fuel as [|fuel IH]; intros s.
  { repeat split; intros; lia. }
  assert (IHscan : forall s', 2 * length s' < fuel -> length s' <= length s ->
            sound (DQUOTE :: s) (scan_once n fuel s')).
  { intros s' Hf Hl. apply (sound_weaken (DQUOTE :: s')); [simpl; lia|].
    apply IH; exact Hf. }
  assert (IHpairs : forall s' d, 2 * length s' + 1 < fuel -> length s' <= length s ->
            sound (DQUOTE :: s) (pairs_from n fuel d s')).
  { intros s' d Hf Hl. apply (sound_weaken (DQUOTE :: s')); [simpl; lia|].
    apply IH; exact Hf. }
  assert (IHitems : forall s' acc, 2 * length s' + 1 < fuel -> length s' <= length s ->
            sound (DQUOTE :: s) (items_from n fuel acc s')).
  { intros s' acc Hf Hl. apply (sound_weaken (DQUOTE :: s')); [simpl; lia|].
    apply IH; exact Hf. }
  clear IH.
  repeat split.
  - (* scan_once *)
    intros Hfuel. cbn [scan_once].
    destruct s as [|c r]; [exact I|]. simpl in Hfuel.
    pose proof (skip_ws_length r) as Hws.
    destruct (c =? DQUOTE)%N.
    { pose proof (scanstring_sound n (at_ n (c :: r)) r []) as Hs.
      destruct (scanstring n (at_ n (c :: r)) [] r); simpl in *; auto; lia. }
    destruct (c =? 123)%N.
    { destruct (skip_ws r) as [|c1 r2] eqn:Hr1.
      - apply IHpairs; simpl in *; lia.
      - destruct (c1 =? 125)%N; [simpl in *; lia|].
        apply IHpairs; simpl in *; lia. }
    destruct (c =? 91)%N.
    { destruct (skip_ws r) as [|c1 r2] eqn:Hr1.
      - apply IHitems; simpl in *; lia.
      - destruct (c1 =? 93)%N; [simpl in *; lia|].
        apply IHitems; simpl in *; lia. }
    repeat match goal with
      | |- sound _ (match strip_prefix (lit ?p) ?x with _ => _ end) =>
          let H := fresh "H" in
          destruct (strip_prefix (lit p) x) eqn:H;
          [apply literal_shorter in H; [simpl in *; lia | discriminate]|]
      end.
    apply (sound_weaken (c :: r)); [simpl; lia | apply match_number_sound].
  - (* pairs_from *)
    intros Hfuel d. cbn [pairs_from].
    destruct s as [|q r]; [exact I|]. simpl in Hfuel.
    destruct (q =? DQUOTE)%N; [|exact I].
    pose proof (scanstring_sound n (at_ n (q :: r)) r []) as Hs.
    destruct (scanstring n (at_ n (q :: r)) [] r) as [key r1| | |]; simpl in Hs;
      try exact I; try contradiction.
    pose proof (skip_ws_length r1) as Hr2.
    destruct (skip_ws r1) as [|colon r3]; [exact I|]. simpl in Hr2.
    destruct (colon =? 58)%N; [|exact I].
    pose proof (skip_ws_length r3) as Hr3.
    assert (Hv : sound (DQUOTE :: q :: r) (scan_once n fuel (skip_ws r3))).
    { apply IHscan; simpl; lia. }
    destruct (scan_once n fuel (skip_ws r3)) as [val r4| | |]; simpl in Hv;
      try exact I; try contradiction.
    pose proof (skip_ws_length r4) as Hr5.
    destruct (skip_ws r4) as [|c r6]; [exact I|]. simpl in Hr5.
    destruct (c =? 125)%N; [simpl; lia|].
    destruct (c =? 44)%N; [|exact I].
    pose proof (skip_ws_length r6).
    apply IHpairs; simpl; lia.
  - (* items_from *)
    intros Hfuel acc. cbn [items_from].
    assert (Hv : sound (DQUOTE :: s) (scan_once n fuel s)).
    { apply IHscan; lia. }
    destruct (scan_once n fuel s) as [val r1| | |]; simpl in Hv;
      try exact I; try contradiction.
    pose proof (skip_ws_length r1) as Hr2.
    destruct (skip_ws r1) as [|c r3]; [exact I|]. simpl in Hr2.
    destruct (c =? 93)%N; [simpl; lia|].
    destruct (c =? 44)%N; [|exact I].
    pose proof (skip_ws_length r3).
    apply IHitems; simpl; lia.
Qed.

(** [json.loads] returns a value or raises [JSONDecodeError]. *)
Lemma loads_total (s : str) :
  (exists v, loads s = Return v)
  \/ (exists msg pos, loads s = Raise (JSONDecodeError msg s pos)).
Proof.
  unfold loads.
  destruct (startswith s [65279%N]); [right; eauto|].
  pose proof (skip_ws_length s) as Hws.
  destruct (scan_once_budget (length s) (2 * length s + 1) (skip_ws s)) as [H _].
  specialize (H ltac:(lia)).
  destruct (scan_once (length s) (2 * length s + 1) (skip_ws s)) as [v r| | |];
    simpl in H; try contradiction; try (right; eauto; fail).
  destruct (skip_ws r); [left | right]; eauto.
Qed.

End JsonFacts.

(** ** The pattern of [parse_llm_output] *)

Module ReFacts.
Import Re.

Lemma lstrip_split (s : str) :
  exists ws, all_space ws /\ s = ws ++ lstrip s.
Proof.
  induction s as [|c s (ws & Hws & IH)]; [exists []; split; reflexivity|].
  simpl. destruct (isspace c) eqn:Hc.
  - exists (c :: ws). split; [unfold all_space; simpl; rewrite Hc; exact Hws|].
    simpl; f_equal; exact IH.
  - exists []. split; reflexivity.
Qed.

Lemma lstrip_skips (ws s : str) (c : char) :
  all_space ws -> isspace c = false -> lstrip (ws ++ c :: s) = c :: s.
Proof.
  unfold all_space. induction ws as [|w ws IH]; simpl; intros Hws Hc.
  - rewrite Hc; reflexivity.
  - apply andb_prop in Hws as [Hw Hws]. rewrite Hw. auto.
Qed.

Lemma closing_fence_sound (s rest : str) :
  closing_fence s = Some rest ->
  exists ws, all_space ws /\ s = ws ++ lit "```" ++ rest.
Proof.
  unfold closing_fence; intros H.
  destruct (lstrip_split s) as (ws & Hws & Hs).
  exists ws; split; [exact Hws|].
  apply strip_prefix_app in H. rewrite <- H. exact Hs.
Qed.

Lemma closing_fence_complete (ws rest : str) :
  all_space ws -> closing_fence (ws ++ lit "```" ++ rest) = Some rest.
Proof.
  intros Hws. unfold closing_fence.
  change (lit "```" ++ rest) with (BACKTICK :: (lit "``" ++ rest)).
  rewrite lstrip_skips by (auto; reflexivity).
  reflexivity.
Qed.

Lemma lazy_body_sound (s body rest : str) :
  lazy_body s = Some (body, rest) ->
  exists inner ws,
    all_space ws /\ body = inner ++ [125%N]
    /\ s = inner ++ [125%N] ++ ws ++ lit "```" ++ rest.
Proof.
  revert body; induction s as [|c r IH]; intros body; simpl; [discriminate|].
  destruct (if (c =? 125)%N then closing_fence r else None) as [rest'|] eqn:Hc.
  - intros H; inversion H; subst.
    destruct (N.eqb_spec c 125); [|discriminate]. subst.
    apply closing_fence_sound in Hc as (ws & Hws & Hr).
    exists [], ws. repeat split; auto. simpl; f_equal; exact Hr.
  - destruct (lazy_body r) as [[body' rest']|]; [|discriminate].
    intros H; inversion H; subst.
    destruct (IH body' eq_refl) as (inner & ws & Hws & Hb & Hr).
    exists (c :: inner), ws. repeat split; auto.
    + simpl; f_equal; exact Hb.
    + simpl; f_equal; exact Hr.
Qed.

Lemma lazy_body_complete (inner ws rest : str) :
  all_space ws ->
  exists body rest',
    lazy_body (inner ++ [125%N] ++ ws ++ lit "```" ++ rest) = Some (body, rest').
Proof.
  intros Hws. induction inner as [|c inner (body & rest' & IH)].
  - change ([] ++ [125%N] ++ ws ++ lit "```" ++ rest)
      with (125%N :: (ws ++ lit "```" ++ rest)).
    cbn [lazy_body]. rewrite N.eqb_refl.
    rewrite closing_fence_complete by exact Hws. eauto.
  - change ((c :: inner) ++ [125%N] ++ ws ++ lit "```" ++ rest)
      with (c :: (inner ++ [125%N] ++ ws ++ lit "```" ++ rest)).
    cbn [lazy_body]. rewrite IH.
    destruct (if (c =? 125)%N then _ else None); eauto.
Qed.

Lemma match_here_sound (s group rest : str) :
  match_here s = Some (group, rest) ->
  exists ws1 inner ws2,
    all_space ws1 /\ all_space ws2
    /\ group = [123%N] ++ inner ++ [125%N]
    /\ s = lit "```json" ++ ws1 ++ group ++ ws2 ++ lit "```" ++ rest.
Proof.
  unfold match_here.
  destruct (strip_prefix (lit "```json") s) as [r|] eqn:Hp; [|discriminate].
  apply strip_prefix_app in Hp.
  destruct (lstrip_split r) as (ws1 & Hws1 & Hr).
  destruct (lstrip r) as [|c r']; [discriminate|].
  destruct (N.eqb_spec c 123); [|discriminate]. subst c.
  destruct (lazy_body r') as [[body rest']|] eqn:Hb; [|discriminate].
  intros H; inversion H; subst group rest'. clear H.
  apply lazy_body_sound in Hb as (inner & ws2 & Hws2 & Hb & Hr').
  exists ws1, inner, ws2. repeat split; auto.
  - subst body; reflexivity.
  - rewrite Hp, Hr, Hr', Hb. simpl. rewrite <- !app_assoc. reflexivity.
Qed.

Lemma match_here_complete (ws1 inner ws2 rest : str) :
  all_space ws1 -> all_space ws2 ->
  exists group rest',
    match_here (lit "```json" ++ ws1 ++ [123%N] ++ inner ++ [125%N]
                  ++ ws2 ++ lit "```" ++ rest) = Some (group, rest').
Proof.
  intros H1 H2. unfold match_here.
  rewrite strip_prefix_complete.
  change ([123%N] ++ inner ++ [125%N] ++ ws2 ++ lit "```" ++ rest)
    with (123%N :: (inner ++ [125%N] ++ ws2 ++ lit "```" ++ rest)).
  rewrite lstrip_skips by (auto; reflexivity).
  rewrite N.eqb_refl.
  destruct (lazy_body_complete inner ws2 rest H2) as (body & rest' & Hb).
  rewrite Hb. eauto.
Qed.

(** Every match is a brace-delimited piece of the text. *)
Lemma findall_from_braces (s : str) :
  forall skip g, In g (findall_from skip s) ->
    exists inner, g = [123%N] ++ inner ++ [125%N].
Proof.
  induction s as [|c r IH]; intros skip g; simpl; [tauto|].
  destruct skip as [|k]; [|apply IH].
  destruct (match_here (c :: r)) as [[group rest]|] eqn:Hm; [|apply IH].
  intros [Hg | Hg]; [|eapply IH; exact Hg].
  subst group. apply match_here_sound in Hm as (ws1 & inner & ws2 & _ & _ & Hg & _).
  exists inner. exact Hg.
Qed.

(** A match comes from a fenced block of the text. *)
Lemma findall_from_sound (s : str) :
  forall skip, findall_from skip s <> [] -> fenced_json_block s.
Proof.
  induction s as [|c r IH]; intros skip; simpl; [congruence|].
  assert (Hr : forall k, findall_from k r <> [] -> fenced_json_block (c :: r)).
  { intros k Hk. destruct (IH k Hk) as (b & ws1 & inner & ws2 & a & H1 & H2 & Hs).
    exists (c :: b), ws1, inner, ws2, a. repeat split; auto.
    simpl; f_equal; exact Hs. }
  destruct skip as [|k]; [|apply Hr].
  destruct (match_here (c :: r)) as [[group rest]|] eqn:Hm; [|apply Hr].
  intros _.
  apply match_here_sound in Hm as (ws1 & inner & ws2 & H1 & H2 & Hg & Hs).
  exists [], ws1, inner, ws2, rest. repeat split; auto.
  rewrite Hs, Hg. simpl. rewrite <- !app_assoc. reflexivity.
Qed.

(** A fenced block of the text gives a match. *)
Lemma findall_complete (s : str) :
  fenced_json_block s -> findall s <> [].
Proof.
  intros (b & ws1 & inner & ws2 & a & H1 & H2 & Hs). subst s.
  unfold findall.
  destruct (match_here_complete ws1 inner ws2 a H1 H2) as (g & rest & Hm).
  set (t := lit "```json" ++ _) in *.
  assert (Ht : exists c t', t = c :: t') by (subst t; simpl; eauto).
  clearbody t.
  induction b as [|c b IH]; simpl.
  - destruct Ht as (c & t' & ->). simpl. rewrite Hm. discriminate.
  - destruct (match_here (c :: b ++ t)) as [[g' rest']|]; [discriminate|].
    exact IH.
Qed.

End ReFacts.

(** ** The Result Extractor *)

Module JsonObjects.
Import Json.

Lemma pairs_from_dict (n : nat) :
  forall fuel d s v r, pairs_from n fuel d s = Scanned v r -> exists d', v = PDict d'.
Proof.
  induction fuel as [|fuel IH]; intros d s v r; [discriminate|].
  cbn [pairs_from].
  destruct s as [|q s]; [discriminate|].
  destruct (q =? DQUOTE)%N; [|discriminate].
  destruct (scanstring n (at_ n (q :: s)) [] s) as [key r1| | |]; try discriminate.
  destruct (skip_ws r1) as [|colon r3]; [discriminate|].
  destruct (colon =? 58)%N; [|discriminate].
  destruct (scan_once n fuel (skip_ws r3)) as [val r4| | |]; try discriminate.
  destruct (skip_ws r4) as [|c r6]; [discriminate|].
  destruct (c =? 125)%N; [intros H; inversion H; eauto|].
  destruct (c =? 44)%N; [apply IH | discriminate].
Qed.

Lemma scan_once_brace (n fuel : nat) (s : str) (v : pyvalue) (r : str) :
  scan_once n fuel (123%N :: s) = Scanned v r -> exists d, v = PDict d.
Proof.
  destruct fuel as [|fuel]; [discriminate|].
  cbn [scan_once].
  change (123 =? DQUOTE)%N with false. change (123 =? 123)%N with true. cbv iota.
  destruct (skip_ws s) as [|c1 r2].
  - apply pairs_from_dict.
  - destruct (c1 =? 125)%N; [intros H; inversion H; eauto | apply pairs_from_dict].
Qed.

(** A document that starts with an opening brace decodes to a [dict], if
    it decodes. *)
Lemma loads_brace (s : str) (v : pyvalue) :
  loads (123%N :: s) = Return v -> exists d, v = PDict d.
Proof.
  unfold loads.
  change (startswith (123%N :: s) [65279%N]) with false. cbv iota.
  change (skip_ws (123%N :: s)) with (123%N :: s).
  destruct (scan_once _ _ (123%N :: s)) as [v0 r0| | |] eqn:Hs; try discriminate.
  apply scan_once_brace in Hs as [d ->].
  destruct (skip_ws r0); [|discriminate].
  intros H; inversion H; eauto.
Qed.

End JsonObjects.

Lemma parse_llm_output_matches (s : str) (ms : list str) (m : str) :
  Re.findall s = ms ++ [m] ->
  parse_llm_output s =
    match Json.loads m with
    | Return v => Return v
    | Raise (JSONDecodeError _ _ _ as e) =>
        Return (PStr (lit "Error parsing JSON: " ++ exn_str e))
    | Raise e => Raise e
    end.
Proof.
  intros H. unfold parse_llm_output.
  destruct s as [|c s]; [destruct ms; discriminate|].
  rewrite H. rewrite last_last.
  destruct ms; reflexivity.
Qed.

Lemma parse_llm_output_no_match (s : str) :
  s <> [] -> Re.findall s = [] ->
  parse_llm_output s = Return (PStr (lit "No JSON found in response")).
Proof.
  intros Hs H. unfold parse_llm_output.
  destruct s; [congruence|]. rewrite H. reflexivity.
Qed.


(** Text without a backtick has no match, and no match starts in it. *)
Lemma findall_from_no_backtick (a t : str) :
  free_of BACKTICK a -> Re.findall_from 0 (a ++ t) = Re.findall_from 0 t.
Proof.
  unfold free_of. induction a as [|c a IH]; simpl; [reflexivity|].
  intros H. apply andb_prop in H as [Hc Ha].
  assert (Hm : Re.match_here (c :: a ++ t) = None).
  { unfold Re.match_here.
    change (lit "```json") with (BACKTICK :: lit "``json").
    cbn [strip_prefix]. rewrite N.eqb_sym.
    apply negb_true_iff in Hc. rewrite Hc. reflexivity. }
  rewrite Hm. auto.
Qed.

(** Scanning goes on where the last match ended. *)
Lemma findall_from_skip (x t : str) :
  Re.findall_from (length x) (x ++ t) = Re.findall_from 0 t.
Proof. induction x as [|c x IH]; simpl; [destruct t|]; auto. Qed.

Lemma findall_from_fence (body t : str) :
  Re.match_here (fence body ++ t) = Some (body, t) ->
  Re.findall_from 0 (fence body ++ t) = body :: Re.findall_from 0 t.
Proof.
  intros Hm. unfold fence in *. rewrite <- !app_assoc in *.
  change (lit "```json" ++ body ++ lit "```" ++ t)
    with (BACKTICK :: (lit "``json" ++ body ++ lit "```" ++ t)) in *.
  cbn [Re.findall_from]. rewrite Hm. f_equal.
  replace (length (lit "``json" ++ body ++ lit "```" ++ t) - length t)
    with (length (lit "``json" ++ body ++ lit "```")).
  - rewrite <- findall_from_skip with (x := lit "``json" ++ body ++ lit "```").
    rewrite <- !app_assoc. reflexivity.
  - rewrite !length_app. lia.
Qed.



(** C6.  A non-empty text with no fenced JSON block gets exactly the
    diagnostic "No JSON found in response". *)
Theorem parse_llm_output_no_json (llm_output : str) :
  llm_output <> [] ->
  ~ fenced_json_block llm_output ->
  parse_llm_output llm_output = Return (PStr (lit "No JSON found in response")).
Proof.
  intros Hs Hno. apply parse_llm_output_no_match; [exact Hs|].
  destruct (Re.findall llm_output) eqn:Hf; [reflexivity|].
  exfalso. apply Hno. apply (ReFacts.findall_from_sound llm_output 0).
  unfold Re.findall in Hf. rewrite Hf. discriminate.
Qed.

Lemma parse_llm_output_no_json_witness :
  parse_llm_output (lit "The note mentions no fall. {falls: false}")
  = Return (PStr (lit "No JSON found in response")).
Proof.
  apply (parse_llm_output_no_json (lit "The note mentions no fall. {falls: false}")).
  - discriminate.
  - intros H. apply ReFacts.findall_complete in H. apply H. reflexivity.
Defined.

(** ** The Batch Runner *)

Lemma parse_llm_output_verdict (s : str) :
  exists v, parse_llm_output s = Return v /\ verdict v.
Proof.
  destruct s as [|c s].
  { eexists; split; [reflexivity | constructor]. }
  destruct (Re.findall (c :: s)) as [|m0 ms0] eqn:Hf.
  { rewrite parse_llm_output_no_match by (auto; discriminate).
    eexists; split; [reflexivity | constructor]. }
  destruct (@exists_last _ (m0 :: ms0) ltac:(discriminate)) as (ms & m & Hm).
  rewrite Hm in Hf.
  rewrite (parse_llm_output_matches _ _ _ Hf).
  assert (Hin : In m (Re.findall_from 0 (c :: s))).
  { unfold Re.findall in Hf. rewrite Hf. apply in_or_app; right; left; reflexivity. }
  apply ReFacts.findall_from_braces in Hin as [inner ->].
  simpl ([123%N] ++ _).
  destruct (JsonFacts.loads_total (123%N :: inner ++ [125%N])) as [[v Hv] | (msg & pos & He)].
  - rewrite Hv. exists v; split; [reflexivity|].
    destruct (JsonObjects.loads_brace _ _ Hv) as [d ->]. constructor.
  - rewrite He. eexists; split; [reflexivity | constructor].
Qed.

(** One turn of the loop: the record gets one entry and the counter one
    more, or an exception leaves with the core as it was. *)
Lemma process_row_cases (E : env) (st : state) (row : list str) :
  (exists entry st',
      process_row E st row = Next st'
      /\ recorded row entry
      /\ self st' = self (record_result st entry))
  \/ (exists e st',
        process_row E st row = Throw e st'
        /\ self st' = self st
        /\ exists n prompt, subprocess_run E n prompt = Raise e).
Proof.
  unfold process_row, recorded, record_text.
  destruct (strip (join (lit " ") row)) as [|c text] eqn:Ht.
  { left. exists ([], PStr []), (record_result st ([], PStr [])).
    repeat split; constructor. }
  unfold call_llm.
  destruct (subprocess_run E (length (invocations st)) (build_prompt (c :: text)))
    as [result|e] eqn:Hrun.
  - left.
    set (out := if negb (returncode result =? 0)%Z then _ else _).
    assert (Hout : exists llm_output,
               out = (Return llm_output,
                      {| self := self st;
                         invocations := invocations st ++ [build_prompt (c :: text)] |})).
    { subst out. destruct (negb (returncode result =? 0)%Z); eauto. }
    destruct Hout as [llm_output ->].
    destruct (startswith llm_output (lit "Error: LLM execution failed.")).
    + eexists (_, _), _. repeat split; constructor.
    + destruct (parse_llm_output_verdict llm_output) as (v & -> & Hv).
      eexists (_, _), _. repeat split; exact Hv.
  - right. eexists _, _. repeat split; eauto.
Qed.

Lemma StronglySorted_snoc {A} (R : A -> A -> Prop) (l : list A) (x : A) :
  StronglySorted R l -> Forall (fun y => R y x) l -> StronglySorted R (l ++ [x]).
Proof.
  induction 1 as [|y l Hl IH Hy]; intros Hx; simpl.
  - repeat constructor.
  - inversion Hx; subst. constructor; [auto|].
    apply Forall_app; split; [exact Hy | repeat constructor; assumption].
Qed.

Lemma for_rows_boundaries (E : env) :
  forall rows i st,
    length (results (self st)) = rows_processed (self st) ->
    let (boundaries, o) := for_rows E i rows st in
    StronglySorted progress_le boundaries
    /\ Forall (within st (length rows)) boundaries
    /\ within st (length rows) (self (state_of o))
    /\ Forall (fun c => progress_le c (self (state_of o))) boundaries.
Proof.
  unfold within, progress_le.
  induction rows as [|row rest IH]; intros i st Hst; cbn [for_rows].
  { simpl. repeat split; repeat constructor; lia. }
  destruct (cancel_requested (self (observe E i st))).
  { simpl. repeat split; repeat constructor; simpl; lia. }
  destruct (process_row_cases E (observe E i st) row)
    as [(entry & st1 & -> & _ & Hself) | (e & st1 & -> & Hself & _)].
  - specialize (IH (S i) st1).
    destruct (for_rows E (S i) rest st1) as [boundaries o].
    rewrite Hself in IH. simpl in IH.
    destruct IH as (Hs & Hall & Hend & Hle).
    { rewrite length_app. simpl. lia. }
    rewrite Forall_forall in Hall, Hle.
    repeat split.
    + constructor; [exact Hs|].
      apply Forall_forall. intros c Hc. specialize (Hall c Hc). simpl. lia.
    + constructor; [simpl; repeat split; lia|].
      apply Forall_forall. intros c Hc. specialize (Hall c Hc). simpl. lia.
    + lia.
    + simpl; lia.
    + lia.
    + lia.
    + constructor; [simpl; lia|].
      apply Forall_forall. exact Hle.
  - simpl. rewrite Hself. simpl.
    repeat split; repeat constructor; simpl; lia.
Qed.

(** C2.  In a run started on a fresh core, over the cores seen at the
    record boundaries from the call of [process_rows] to its end:
    [rows_processed] never decreases, never exceeds [total_rows], and the
    result list is as long as [rows_processed] says. *)
Theorem run_state_invariant (E : env) (rows : list (list str)) (path : str) :
  StronglySorted progress_le (fst (process_rows E rows (fresh path)))
  /\ Forall run_invariant (fst (process_rows E rows (fresh path)))
  /\ run_invariant (self (state_of (snd (process_rows E rows (fresh path))))).
Proof.
  unfold process_rows.
  pose proof (for_rows_boundaries E rows 0 (begin_run rows (fresh path)) eq_refl) as H.
  destruct (for_rows E 0 rows (begin_run rows (fresh path))) as [boundaries o].
  destruct H as (Hs & Hall & Hend & Hle).
  unfold within in *. simpl in Hall, Hend.
  assert (Hinv : Forall run_invariant boundaries).
  { eapply Forall_impl; [|exact Hall]. unfold run_invariant. simpl. intros; lia. }
  assert (Hzero : forall l : list core, Forall (progress_le (__init__ path)) l).
  { intros l. apply Forall_forall. intros; unfold progress_le; simpl; lia. }
  destruct o as [st1|e st1]; simpl in *.
  - repeat split.
    + constructor; [|apply Hzero].
      apply StronglySorted_snoc; [exact Hs|].
      eapply Forall_impl; [|exact Hle]. unfold progress_le; simpl; auto.
    + constructor; [split; simpl; lia|].
      apply Forall_app; split; [exact Hinv|].
      repeat constructor; simpl; lia.
    + simpl; lia.
    + simpl; lia.
  - repeat split.
    + constructor; [exact Hs | apply Hzero].
    + constructor; [split; simpl; lia | exact Hinv].
    + simpl; lia.
    + simpl; lia.
Qed.

Lemma observe_quiet (E : env) (i : nat) (st : state) :
  cancel_requested (self st) = false -> observer E i = false -> observe E i st = st.
Proof.
  intros Hc Ho. unfold observe. rewrite Hc, Ho.
  destruct st as [[] ?]; simpl in *; subst; reflexivity.
Qed.

(** The loop over [pre], when no cancellation is seen at its boundaries and
    it comes to its end: every record has its entry, in order, and the loop
    over a longer list goes on from there. *)
Lemma for_rows_uncancelled (E : env) :
  forall pre i st boundaries s,
    cancel_requested (self st) = false ->
    (forall j, i <= j < i + length pre -> observer E j = false) ->
    for_rows E i pre st = (boundaries, Done s) ->
    cancel_requested (self s) = false
    /\ rows_processed (self s) = rows_processed (self st) + length pre
    /\ total_rows (self s) = total_rows (self st)
    /\ output_path (self s) = output_path (self st)
    /\ processing_done (self s) = processing_done (self st)
    /\ (exists entries,
          results (self s) = results (self st) ++ entries
          /\ Forall2 recorded pre entries)
    /\ forall rest,
        snd (for_rows E i (pre ++ rest) st) = snd (for_rows E (i + length pre) rest s).
Proof.
  induction pre as [|row pre IH]; intros i st boundaries s Hc Hobs; cbn [for_rows].
  { intros H; inversion H; subst. repeat split; auto.
    - exists []. rewrite app_nil_r. split; [reflexivity | constructor].
    - intros rest. simpl. rewrite Nat.add_0_r. reflexivity. }
  rewrite (observe_quiet E i st Hc) by (apply Hobs; simpl; lia).
  rewrite Hc.
  destruct (process_row_cases E st row)
    as [(entry & st1 & Hrow & Hrec & Hself) | (e & st1 & Hrow & _)];
    rewrite Hrow; [|destruct (for_rows E (S i) pre st1); discriminate].
  destruct (for_rows E (S i) pre st1) as [b1 o1] eqn:Hloop.
  intros H; inversion H; subst boundaries o1. clear H.
  destruct (IH (S i) st1 b1 s) as (H1 & H2 & H3 & H4 & H5 & (entries & H6 & H7) & H8).
  { rewrite Hself; exact Hc. }
  { intros j Hj. apply Hobs. simpl. lia. }
  { exact Hloop. }
  rewrite Hself in H2, H3, H4, H5, H6. simpl in H2, H3, H4, H5, H6.
  split; [exact H1|]. split; [simpl; lia|].
  split; [exact H3|]. split; [exact H4|]. split; [exact H5|]. split.
  - exists (entry :: entries). rewrite H6, <- app_assoc. split; [reflexivity|].
    constructor; assumption.
  - intros rest. simpl app. cbn [for_rows].
    rewrite (observe_quiet E i st Hc) by (apply Hobs; simpl; lia).
    rewrite Hc, Hrow.
    specialize (H8 rest).
    destruct (for_rows E (S i) (pre ++ rest) st1).
    simpl in H8. simpl snd at 1. rewrite H8. simpl length.
    replace (i + S (length pre)) with (S (i + length pre)) by lia. reflexivity.
Qed.


(** C1.  When cancellation is asked for after exactly [k] records have been
    processed, with [k] less than the number of records, [process_rows] ends
    without attempting another record: [rows_processed] and the length of
    the result list are [k], [processing_done] is set, and the results and
    the invocations are those of the first [k] records. *)
Theorem cancel_after_k_records
  (E : env) (rows : list (list str)) (path : str) (k : nat)
  (boundaries : list core) (s_k : state) :
  k < length rows ->
  (forall i, i < k -> observer E i = false) ->
  observer E k = true ->
  for_rows E 0 (firstn k rows) (begin_run rows (fresh path)) = (boundaries, Done s_k) ->
  exists final,
    snd (process_rows E rows (fresh path)) = Done final
    /\ rows_processed (self final) = k
    /\ length (results (self final)) = k
    /\ processing_done (self final) = true
    /\ cancel_requested (self final) = true
    /\ results (self final) = results (self s_k)
    /\ invocations final = invocations s_k
    /\ Forall2 recorded (firstn k rows) (results (self final)).
Proof.
  intros Hk Hquiet Hcancel Hloop.
  assert (Hlen : length (firstn k rows) = k) by (rewrite length_firstn; lia).
  assert (Hq : forall j, 0 <= j < 0 + length (firstn k rows) -> observer E j = false)
    by (intros j Hj; apply Hquiet; lia).
  destruct (for_rows_uncancelled E (firstn k rows) 0 (begin_run rows (fresh path))
              boundaries s_k eq_refl Hq Hloop)
    as (Hc & Hrp & _ & _ & _ & (entries & Hres & Hrec) & Hnext).
  simpl in Hrp, Hres.
  specialize (Hnext (skipn k rows)).
  rewrite firstn_skipn, Hlen in Hnext. simpl in Hnext.
  destruct (skipn k rows) as [|row rest] eqn:Hskip.
  { pose proof (length_skipn k rows) as Hl. rewrite Hskip in Hl. simpl in Hl. lia. }
  cbn [for_rows] in Hnext.
  assert (Hflag : cancel_requested (self (observe E k s_k)) = true).
  { simpl. rewrite Hcancel. apply orb_true_r. }
  rewrite Hflag in Hnext. simpl in Hnext.
  exists (end_run (observe E k s_k)).
  unfold process_rows.
  destruct (for_rows E 0 rows (begin_run rows (fresh path))) as [b o].
  simpl in Hnext. subst o. simpl.
  rewrite Hcancel, orb_true_r.
  subst entries.
  repeat split; auto; try lia.
  apply Forall2_length in Hrec. lia.
Qed.

Lemma cancel_after_k_records_witness :
  exists final,
    snd (process_rows cancelling_env five_records (fresh OUT)) = Done final
    /\ rows_processed (self final) = 3
    /\ length (results (self final)) = 3
    /\ processing_done (self final) = true
    /\ cancel_requested (self final) = true
    /\ results (self final) = results (self (state_of (snd three_done)))
    /\ invocations final = invocations (state_of (snd three_done))
    /\ Forall2 recorded (firstn 3 five_records) (results (self final)).
Proof.
  apply (cancel_after_k_records cancelling_env five_records OUT 3
           (fst three_done) (state_of (snd three_done))).
  - simpl; lia.
  - intros [|[|[|i]]] Hi; try reflexivity; lia.
  - reflexivity.
  - vm_compute; reflexivity.
Defined.





(** C7.  A record whose joined text is empty, when the loop comes to it
    without cancellation: the empty placeholder is appended,
    [rows_processed] goes up by one, no inference is invoked, and the loop
    goes on with the next record. *)
Theorem empty_record_placeholder
  (E : env) (i : nat) (st : state) (row : list str) (rest : list (list str)) :
  record_text row = [] ->
  cancel_requested (self (observe E i st)) = false ->
  exists st',
    process_row E (observe E i st) row = Next st'
    /\ results (self st') = results (self st) ++ [([], PStr [])]
    /\ rows_processed (self st') = S (rows_processed (self st))
    /\ invocations st' = invocations st
    /\ snd (for_rows E i (row :: rest) st) = snd (for_rows E (S i) rest st').
Proof.
  intros Hrow Hc.
  exists (record_result (observe E i st) ([], PStr [])).
  assert (Hstep : process_row E (observe E i st) row
                  = Next (record_result (observe E i st) ([], PStr []))).
  { unfold process_row. unfold record_text in Hrow. rewrite Hrow. reflexivity. }
  repeat split; auto.
  cbn [for_rows]. rewrite Hc, Hstep.
  destruct (for_rows E (S i) rest _); reflexivity.
Qed.

Lemma empty_record_placeholder_witness :
  exists st',
    process_row (answering REPLY_TRUE) (observe (answering REPLY_TRUE) 1 one_done)
      [[]; lit "  "] = Next st'
    /\ results (self st') = results (self one_done) ++ [([], PStr [])]
    /\ rows_processed (self st') = 2
    /\ invocations st' = invocations one_done
    /\ snd (for_rows (answering REPLY_TRUE) 1 (skipn 1 four_records) one_done)
       = snd (for_rows (answering REPLY_TRUE) 2 (skipn 2 four_records) st').
Proof.
  apply (empty_record_placeholder (answering REPLY_TRUE) 1 one_done
           [[]; lit "  "] (skipn 2 four_records)); reflexivity.
Defined.

(** ** The Result Sink *)


Lemma write_file_twice (fs : files) (path content : str) :
  write_file (write_file fs path content) path content = write_file fs path content.
Proof.
  induction fs as [|[p c] fs IH]; simpl.
  - unfold str_eqb. destruct (list_eq_dec N.eq_dec path path); congruence.
  - unfold str_eqb. destruct (list_eq_dec N.eq_dec p path) as [->|Hp] eqn:Heq; simpl;
      unfold str_eqb; rewrite Heq; congruence.
Qed.



(** C9.  Running [save_results] again on the same core leaves the files as
    the first run left them: the destination is overwritten with the same
    content. *)
Theorem save_results_idempotent
  (float_repr str_repr : str -> str) (E : env) (c : core) (fs fs1 : files) :
  save_results float_repr str_repr E c fs = Return fs1 ->
  save_results float_repr str_repr E c fs1 = Return fs1.
Proof.
  unfold save_results.
  destruct (output_path c) as [|p0 p]; [intros H; inversion H; reflexivity|].
  destruct (can_open E (p0 :: p)); [|discriminate].
  intros H; inversion H. rewrite write_file_twice. reflexivity.
Qed.

Lemma save_results_idempotent_witness :
  save_results (fun x => x) (fun x => x) (answering []) example_core [(OUT, example_report)]
  = Return [(OUT, example_report)].
Proof.
  apply (save_results_idempotent (fun x => x) (fun x => x) (answering []) example_core []).
  reflexivity.
Defined.

(** ** The Prompt Builder *)

Lemma split_cons (c : char) (s : str) : exists l ls, split c s = l :: ls.
Proof.
  induction s as [|x s (l & ls & IH)]; simpl; [eauto|].
  destruct (x =? c)%N; [eauto|]. rewrite IH. eauto.
Qed.

Lemma split_app_sep (c : char) (a b : str) :
  split c (a ++ c :: b) = split c a ++ split c b.
Proof.
  induction a as [|x a IH]; simpl.
  - rewrite N.eqb_refl. reflexivity.
  - destruct (x =? c)%N; rewrite IH; [reflexivity|].
    destruct (split_cons c a) as (l & ls & ->). reflexivity.
Qed.

Lemma split_prefix (c : char) (h s l : str) (ls : list str) :
  free_of c h -> split c s = l :: ls -> split c (h ++ s) = (h ++ l) :: ls.
Proof.
  unfold free_of. intros Hh Hs.
  induction h as [|x h IH]; simpl in *; [exact Hs|].
  apply andb_prop in Hh as [Hx Hh].
  apply negb_true_iff in Hx. rewrite Hx, (IH Hh). reflexivity.
Qed.

Lemma join_split (c : char) (s : str) : join [c] (split c s) = s.
Proof.
  induction s as [|x s IH]; [reflexivity|]. simpl.
  destruct (N.eqb_spec x c) as [->|Hx].
  - destruct (split_cons c s) as (l & ls & Hs). rewrite Hs in *.
    cbn [join]. simpl. f_equal. exact IH.
  - destruct (split_cons c s) as (l & ls & Hs). rewrite Hs in *.
    destruct ls; simpl in *; f_equal; exact IH.
Qed.

Lemma join_app (sep : str) (X Y : list str) :
  X <> [] -> Y <> [] -> join sep (X ++ Y) = join sep X ++ sep ++ join sep Y.
Proof.
  intros HX HY. induction X as [|x X IH]; [congruence|].
  destruct X as [|x' X].
  - simpl. destruct Y; [congruence | reflexivity].
  - change (join sep ((x :: x' :: X) ++ Y)) with (x ++ sep ++ join sep ((x' :: X) ++ Y)).
    rewrite IH by discriminate.
    change (join sep (x :: x' :: X)) with (x ++ sep ++ join sep (x' :: X)).
    rewrite <- !app_assoc. reflexivity.
Qed.

Lemma join_first (sep x l : str) (ls : list str) :
  join sep ((x ++ l) :: ls) = x ++ join sep (l :: ls).
Proof. destruct ls; simpl; rewrite <- ?app_assoc; reflexivity. Qed.


Lemma prompt_lines (t l0 : str) (ls : list str) :
  split LF t = l0 :: ls ->
  split LF (prompt_head ++ t ++ prompt_tail)
  = head_lines ++ (NOTE_LINE ++ l0) :: ls ++ tail_lines.
Proof.
  intros Ht.
  assert (Hhead : prompt_head = join [LF] head_lines ++ LF :: NOTE_LINE)
    by (vm_compute; reflexivity).
  assert (Htail : prompt_tail = LF :: join [LF] tail_lines)
    by (vm_compute; reflexivity).
  assert (Hh : split LF (join [LF] head_lines) = head_lines)
    by (vm_compute; reflexivity).
  assert (Ht' : split LF (join [LF] tail_lines) = tail_lines)
    by (vm_compute; reflexivity).
  assert (Hnote : free_of LF NOTE_LINE) by (vm_compute; reflexivity).
  rewrite Hhead, Htail.
  replace ((join [LF] head_lines ++ LF :: NOTE_LINE) ++ t ++ LF :: join [LF] tail_lines)
    with (join [LF] head_lines ++ LF :: ((NOTE_LINE ++ t) ++ LF :: join [LF] tail_lines)).
  - rewrite !split_app_sep, Hh, Ht'.
    rewrite (split_prefix LF NOTE_LINE t l0 ls Hnote Ht).
    reflexivity.
  - rewrite <- !app_assoc. reflexivity.
Qed.

Module TextwrapFacts.
Import Textwrap.

Lemma common_prefix_is_prefix (a b : str) : exists r, a = common_prefix a b ++ r.
Proof.
  revert b; induction a as [|x a IH]; intros [|y b]; simpl;
    try (eexists; reflexivity).
  destruct (x =? y)%N; [|eexists; reflexivity].
  destruct (IH b) as [r Hr]. exists r. simpl. f_equal. exact Hr.
Qed.

Lemma update_margin_prefix (m indent : str) :
  exists m' r, update_margin (Some m) indent = Some m' /\ m = m' ++ r.
Proof.
  unfold update_margin.
  destruct (startswith indent m).
  { exists m, []. rewrite app_nil_r. auto. }
  unfold startswith.
  destruct (strip_prefix indent m) as [r|] eqn:Hp.
  { apply strip_prefix_app in Hp. eauto. }
  destruct (common_prefix_is_prefix m indent) as [r Hr]. eauto.
Qed.




Lemma shift_indented (m r x : str) :
  INDENT = m ++ r ->
  forallb is_blank x = false -> shift m (INDENT ++ x) = r ++ x.
Proof.
  intros Hm Hx. unfold shift, normalize.
  rewrite forallb_app, Hx, andb_false_r.
  unfold remove_margin. rewrite Hm, <- app_assoc.
  rewrite strip_prefix_complete. reflexivity.
Qed.


End TextwrapFacts.







(** * Further properties of the code *)

(** ** Which records count as empty *)

Lemma lstrip_nil_iff (s : str) : lstrip s = [] <-> forallb isspace s = true.
Proof.
  induction s as [|c s IH]; simpl; [tauto|].
  destruct (isspace c); simpl; [exact IH|]. split; discriminate.
Qed.

Lemma lstrip_head (s : str) (c : char) (r : str) :
  lstrip s = c :: r -> isspace c = false.
Proof.
  induction s as [|x s IH]; simpl; [discriminate|].
  destruct (isspace x) eqn:Hx; [exact IH|].
  intros H; inversion H; subst; exact Hx.
Qed.

Lemma strip_nil_iff (s : str) : strip s = [] <-> forallb isspace s = true.
Proof.
  rewrite <- lstrip_nil_iff. unfold strip, rstrip. split.
  - intros H. apply (f_equal (@rev char)) in H. rewrite rev_involutive in H. simpl in H.
    apply lstrip_nil_iff in H.
    destruct (lstrip s) as [|c r] eqn:Hl; [reflexivity|].
    apply lstrip_head in Hl. simpl in H.
    rewrite forallb_app in H. simpl in H. rewrite Hl, andb_false_r in H. discriminate.
  - intros ->. reflexivity.
Qed.

Lemma join_all_space (row : list str) :
  forallb isspace (join (lit " ") row) = forallb (forallb isspace) row.
Proof.
  induction row as [|f row IH]; [reflexivity|].
  destruct row as [|f' row].
  - simpl. rewrite andb_true_r. reflexivity.
  - change (join (lit " ") (f :: f' :: row)) with (f ++ lit " " ++ join (lit " ") (f' :: row)).
    rewrite !forallb_app, IH. reflexivity.
Qed.

(** X1.  A record is taken as empty (and gets the placeholder, without an
    invocation) exactly when every character of every field is white space;
    a record without fields is empty. *)
Theorem record_text_empty_iff (row : list str) :
  record_text row = [] <-> forallb (forallb isspace) row = true.
Proof.
  unfold record_text. rewrite strip_nil_iff, join_all_space. tauto.
Qed.

(** ** One record, by the way the process ends *)

Lemma startswith_app (p r : str) : startswith (p ++ r) p = true.
Proof. unfold startswith. rewrite strip_prefix_complete. reflexivity. Qed.

(** X2.  A non-zero exit code: the record gets the text "Error: LLM
    execution failed. " followed by the process's stderr, whatever it printed
    on stdout; the extractor is not consulted. *)
Theorem nonzero_exit_recorded
  (E : env) (st : state) (row : list str) (result : completed_process) :
  record_text row <> [] ->
  subprocess_run E (length (invocations st)) (build_prompt (record_text row))
    = Return result ->
  returncode result <> 0%Z ->
  exists st',
    process_row E st row = Next st'
    /\ results (self st')
       = results (self st)
           ++ [(record_text row,
                PStr (lit "Error: LLM execution failed. " ++ stderr result))]
    /\ rows_processed (self st') = S (rows_processed (self st))
    /\ invocations st' = invocations st ++ [build_prompt (record_text row)].
Proof.
  intros Htext Hrun Hcode. unfold process_row. fold (record_text row).
  destruct (record_text row) as [|c t] eqn:Ht; [congruence|].
  unfold call_llm. rewrite Hrun.
  apply Z.eqb_neq in Hcode. rewrite Hcode. cbn [negb].
  change (lit "Error: LLM execution failed. " ++ stderr result)
    with (lit "Error: LLM execution failed." ++ ([SPACE] ++ stderr result)).
  rewrite startswith_app.
  eexists. split; [reflexivity|]. simpl. auto.
Qed.

Lemma nonzero_exit_recorded_witness :
  exists st',
    process_row (exiting 1 FALLS_TRUE (lit "out of memory")) (fresh OUT) [lit "Slept well"]
      = Next st'
    /\ results (self st')
       = [(lit "Slept well", PStr (lit "Error: LLM execution failed. out of memory"))].
Proof.
  destruct (nonzero_exit_recorded (exiting 1 FALLS_TRUE (lit "out of memory")) (fresh OUT)
              [lit "Slept well"] (CompletedProcess 1 FALLS_TRUE (lit "out of memory"))
              ltac:(discriminate) eq_refl ltac:(discriminate))
    as (st' & Hrow & Hres & _).
  exists st'. split; [exact Hrow | exact Hres].
Defined.

(** X3.  Exit code 0 and an output that, once trimmed, starts with "Error:
    LLM execution failed.": the output is recorded as it is, as if the
    invocation had failed; a fenced JSON block in it is not looked at. *)
Theorem error_prefix_recorded_raw
  (E : env) (st : state) (row : list str) (result : completed_process) (rest : str) :
  record_text row <> [] ->
  subprocess_run E (length (invocations st)) (build_prompt (record_text row))
    = Return result ->
  returncode result = 0%Z ->
  strip (stdout result) = ERROR_PREFIX ++ rest ->
  exists st',
    process_row E st row = Next st'
    /\ results (self st')
       = results (self st) ++ [(record_text row, PStr (ERROR_PREFIX ++ rest))].
Proof.
  intros Htext Hrun Hcode Hout. unfold process_row. fold (record_text row).
  destruct (record_text row) as [|c t] eqn:Ht; [congruence|].
  unfold call_llm. rewrite Hrun, Hcode. cbn [Z.eqb negb].
  destruct (stdout result) as [|o out] eqn:Hstdout; [discriminate|].
  rewrite Hout. unfold ERROR_PREFIX at 1. rewrite startswith_app.
  eexists. split; reflexivity.
Qed.

Lemma error_prefix_recorded_raw_witness :
  exists st',
    process_row (exiting 0 (ERROR_PREFIX ++ lit " " ++ fence FALLS_TRUE) [])
      (fresh OUT) [lit "Slept well"] = Next st'
    /\ results (self st')
       = [(lit "Slept well", PStr (ERROR_PREFIX ++ lit " " ++ fence FALLS_TRUE))].
Proof.
  destruct (error_prefix_recorded_raw
              (exiting 0 (ERROR_PREFIX ++ lit " " ++ fence FALLS_TRUE) []) (fresh OUT)
              [lit "Slept well"]
              (CompletedProcess 0 (ERROR_PREFIX ++ lit " " ++ fence FALLS_TRUE) [])
              (lit " " ++ fence FALLS_TRUE)
              ltac:(discriminate) eq_refl eq_refl eq_refl)
    as (st' & Hrow & Hres).
  exists st'. split; [exact Hrow | exact Hres].
Defined.

(** X4.  Exit code 0 and nothing but white space on stdout: the record gets
    the diagnostic "Error: No response from model". *)
Theorem blank_output_recorded
  (E : env) (st : state) (row : list str) (result : completed_process) :
  record_text row <> [] ->
  subprocess_run E (length (invocations st)) (build_prompt (record_text row))
    = Return result ->
  returncode result = 0%Z ->
  forallb isspace (stdout result) = true ->
  exists st',
    process_row E st row = Next st'
    /\ results (self st')
       = results (self st)
           ++ [(record_text row, PStr (lit "Error: No response from model"))].
Proof.
  intros Htext Hrun Hcode Hout. unfold process_row. fold (record_text row).
  destruct (record_text row) as [|c t] eqn:Ht; [congruence|].
  unfold call_llm. rewrite Hrun, Hcode. cbn [Z.eqb negb].
  apply strip_nil_iff in Hout.
  destruct (stdout result) as [|o out]; [|rewrite Hout];
    eexists; split; reflexivity.
Qed.

Lemma blank_output_recorded_witness :
  exists st',
    process_row (exiting 0 [SPACE; LF] []) (fresh OUT) [lit "Slept well"] = Next st'
    /\ results (self st')
       = [(lit "Slept well", PStr (lit "Error: No response from model"))].
Proof.
  destruct (blank_output_recorded (exiting 0 [SPACE; LF] []) (fresh OUT)
              [lit "Slept well"] (CompletedProcess 0 [SPACE; LF] [])
              ltac:(discriminate) eq_refl eq_refl eq_refl)
    as (st' & Hrow & Hres).
  exists st'. split; [exact Hrow | exact Hres].
Defined.

(** ** Runs on any core *)



(** X6.  When [cancel_requested] is already set at the call, [process_rows]
    attempts no record: the results are as they were, no inference is
    invoked, [rows_processed] is 0 and [processing_done] is set. *)
Theorem cancelled_before_start (E : env) (rows : list (list str)) (st : state) :
  cancel_requested (self st) = true ->
  exists final,
    snd (process_rows E rows st) = Done final
    /\ results (self final) = results (self st)
    /\ invocations final = invocations st
    /\ rows_processed (self final) = 0
    /\ total_rows (self final) = length rows
    /\ processing_done (self final) = true.
Proof.
  intros Hc. unfold process_rows.
  destruct rows as [|row rest]; cbn [for_rows].
  - eexists. simpl. repeat split; auto.
  - assert (Hflag : cancel_requested (self (observe E 0 (begin_run (row :: rest) st))) = true)
      by (simpl; rewrite Hc; reflexivity).
    rewrite Hflag. eexists. simpl. repeat split; auto.
Qed.

Lemma cancelled_before_start_witness :
  exists final,
    snd (process_rows (answering REPLY_TRUE) four_records
           {| self := match request_cancel (Some (__init__ OUT)) true with
                      | Some c => c
                      | None => __init__ OUT
                      end;
              invocations := [] |}) = Done final
    /\ results (self final) = []
    /\ invocations final = []
    /\ rows_processed (self final) = 0
    /\ total_rows (self final) = 4
    /\ processing_done (self final) = true.
Proof.
  apply (cancelled_before_start (answering REPLY_TRUE) four_records). reflexivity.
Defined.

Lemma process_row_invocations (E : env) (st st' : state) (row : list str) :
  process_row E st row = Next st' ->
  invocations st'
  = invocations st ++ map build_prompt (filter nonempty [record_text row]).
Proof.
  unfold process_row. fold (record_text row).
  destruct (record_text row) as [|c t].
  { intros H; inversion H. simpl. rewrite app_nil_r. reflexivity. }
  unfold call_llm.
  destruct (subprocess_run E (length (invocations st)) (build_prompt (c :: t)))
    as [result|e]; [|discriminate].
  set (out := if negb (returncode result =? 0)%Z then _ else _).
  assert (Hout : exists llm_output,
             out = (Return llm_output,
                    {| self := self st;
                       invocations := invocations st ++ [build_prompt (c :: t)] |})).
  { subst out. destruct (negb (returncode result =? 0)%Z); eauto. }
  destruct Hout as [llm_output ->].
  destruct (startswith llm_output (lit "Error: LLM execution failed.")).
  - intros H; inversion H. reflexivity.
  - destruct (parse_llm_output llm_output); [|discriminate].
    intros H; inversion H. reflexivity.
Qed.

Lemma for_rows_invocations (E : env) :
  forall rows i st boundaries s,
    cancel_requested (self st) = false ->
    (forall j, i <= j < i + length rows -> observer E j = false) ->
    for_rows E i rows st = (boundaries, Done s) ->
    invocations s
    = invocations st ++ map build_prompt (filter nonempty (map record_text rows)).
Proof.
  induction rows as [|row rows IH]; intros i st boundaries s Hc Hobs; cbn [for_rows].
  { intros H; inversion H. simpl. rewrite app_nil_r. reflexivity. }
  rewrite (observe_quiet E i st Hc) by (apply Hobs; simpl; lia).
  rewrite Hc.
  destruct (process_row_cases E st row)
    as [(entry & st1 & Hrow & _ & Hself) | (e & st1 & Hrow & _)];
    rewrite Hrow; [|destruct (for_rows E (S i) rows st1); discriminate].
  destruct (for_rows E (S i) rows st1) as [b1 o1] eqn:Hloop.
  intros H; inversion H; subst o1.
  rewrite (IH (S i) st1 b1 s) by
    (try exact Hloop; try (rewrite Hself; exact Hc); intros j Hj; apply Hobs; simpl; lia).
  rewrite (process_row_invocations E st st1 row Hrow).
  cbn [map filter]. destruct (nonempty (record_text row)); cbn [map app];
    rewrite <- app_assoc; reflexivity.
Qed.

(** X7.  In a run that is not cancelled and comes to its end, the inference
    process is invoked once for every record whose text is not empty, in
    input order, on the prompt of that text, and never for an empty one. *)
Theorem one_invocation_per_record
  (E : env) (rows : list (list str)) (st final : state) :
  cancel_requested (self st) = false ->
  no_cancel E ->
  snd (process_rows E rows st) = Done final ->
  invocations final
  = invocations st ++ map build_prompt (filter nonempty (map record_text rows)).
Proof.
  intros Hc Hno. unfold process_rows.
  destruct (for_rows E 0 rows (begin_run rows st)) as [b o] eqn:Hloop.
  destruct o as [s|e s]; [|discriminate].
  simpl. intros H; inversion H. simpl.
  apply (for_rows_invocations E rows 0 (begin_run rows st) b s Hc
           ltac:(intros j _; apply Hno) Hloop).
Qed.

Lemma one_invocation_per_record_witness :
  exists final,
    snd (process_rows (answering REPLY_TRUE) four_records (fresh OUT)) = Done final
    /\ invocations final
       = [build_prompt (lit "Resident found on floor");
          build_prompt (lit "Slipped in bathroom");
          build_prompt (lit "Slept well")].
Proof.
  eexists. split; [vm_compute; reflexivity|].
  apply (one_invocation_per_record (answering REPLY_TRUE) four_records (fresh OUT));
    [reflexivity | intros i; reflexivity | vm_compute; reflexivity].
Defined.

Lemma for_rows_raised (E : env) :
  forall rows i st boundaries e s,
    for_rows E i rows st = (boundaries, Raised e s) ->
    exists k entries,
      k < length rows
      /\ results (self s) = results (self st) ++ entries
      /\ Forall2 recorded (firstn k rows) entries
      /\ rows_processed (self s) = rows_processed (self st) + k
      /\ processing_done (self s) = processing_done (self st)
      /\ exists n prompt, subprocess_run E n prompt = Raise e.
Proof.
  induction rows as [|row rows IH]; intros i st boundaries e s; cbn [for_rows];
    [discriminate|].
  destruct (cancel_requested (self (observe E i st))); [discriminate|].
  destruct (process_row_cases E (observe E i st) row)
    as [(entry & st1 & Hrow & Hrec & Hself) | (e1 & st1 & Hrow & Hself & Hraise)];
    rewrite Hrow.
  - destruct (for_rows E (S i) rows st1) as [b1 o1] eqn:Hloop.
    intros H; inversion H; subst o1.
    destruct (IH (S i) st1 b1 e s Hloop) as (k & entries & Hk & Hres & Hall & Hrp & Hdone & Hsrc).
    rewrite Hself in Hres, Hrp, Hdone. simpl in Hres, Hrp, Hdone.
    exists (S k), (entry :: entries). simpl.
    repeat split; auto; try lia.
    rewrite Hres, <- app_assoc. reflexivity.
  - intros H; inversion H; subst.
    exists 0, []. simpl. rewrite Hself. simpl. rewrite app_nil_r.
    repeat split; auto; try lia.
Qed.



(** ** The extractor, beyond the claims *)

(** X9.  On a non-empty text the extractor answers "No JSON found in
    response" exactly when the text has no fenced JSON block. *)
Theorem no_json_iff_no_block (llm_output : str) :
  llm_output <> [] ->
  (parse_llm_output llm_output = Return (PStr (lit "No JSON found in response"))
   <-> ~ fenced_json_block llm_output).
Proof.
  intros Hs. split.
  - intros Hparse Hblock.
    apply ReFacts.findall_complete in Hblock.
    destruct (Re.findall llm_output) as [|m0 ms0] eqn:Hf; [congruence|].
    destruct (@exists_last _ (m0 :: ms0) ltac:(discriminate)) as (ms & m & Hm).
    rewrite Hm in Hf.
    rewrite (parse_llm_output_matches _ _ _ Hf) in Hparse.
    assert (Hin : In m (Re.findall_from 0 llm_output)).
    { unfold Re.findall in Hf. rewrite Hf. apply in_or_app; right; left; reflexivity. }
    apply ReFacts.findall_from_braces in Hin as [inner ->].
    simpl ([123%N] ++ _) in Hparse.
    destruct (JsonFacts.loads_total (123%N :: inner ++ [125%N]))
      as [[v Hv] | (msg & pos & He)].
    + rewrite Hv in Hparse.
      destruct (JsonObjects.loads_brace _ _ Hv) as [d ->]. discriminate.
    + rewrite He in Hparse. discriminate.
  - intros Hno. apply parse_llm_output_no_match; [exact Hs|].
    destruct (Re.findall llm_output) eqn:Hf; [reflexivity|].
    exfalso. apply Hno. apply (ReFacts.findall_from_sound llm_output 0).
    unfold Re.findall in Hf. rewrite Hf. discriminate.
Qed.

Lemma no_json_iff_no_block_witness :
  parse_llm_output (lit "```json{" ++ quoted "falls" ++ lit ": maybe}```")
  <> Return (PStr (lit "No JSON found in response")).
Proof.
  intros H.
  apply (proj1 (no_json_iff_no_block
                  (lit "```json{" ++ quoted "falls" ++ lit ": maybe}```")
                  ltac:(discriminate))) in H.
  apply H.
  exists [], [], (quoted "falls" ++ lit ": maybe"), [], [].
  repeat split; reflexivity.
Defined.

Lemma plain_facts (c : char) :
  plain c = true ->
  (c =? DQUOTE)%N = false /\ (c =? BACKSLASH)%N = false /\ (c <=? 31)%N = false
  /\ (c =? 125)%N = false /\ (c =? BACKTICK)%N = false.
Proof.
  unfold plain. intros H. apply negb_true_iff in H.
  repeat (apply orb_false_iff in H; destruct H as [H ?]). auto.
Qed.

Lemma scanstring_plain (n begin : nat) (v rest : str) :
  forallb plain v = true ->
  forall acc,
    Json.scanstring n begin acc (v ++ DQUOTE :: rest) = Json.Scanned (rev acc ++ v) rest.
Proof.
  induction v as [|c v IH]; intros Hv acc.
  - simpl. rewrite app_nil_r. reflexivity.
  - simpl in Hv. apply andb_prop in Hv as [Hc Hv].
    destruct (plain_facts c Hc) as (H1 & H2 & H3 & _).
    simpl app. cbn [Json.scanstring]. rewrite H1, H2, H3.
    rewrite (IH Hv). simpl. rewrite <- app_assoc. reflexivity.
Qed.

Lemma lazy_body_to_brace (x rest : str) :
  forallb (fun c => negb (c =? 125)%N) x = true ->
  Re.lazy_body (x ++ 125%N :: lit "```" ++ rest) = Some (x ++ [125%N], rest).
Proof.
  induction x as [|c x IH]; intros Hx.
  - change ([] ++ 125%N :: lit "```" ++ rest) with (125%N :: ([] ++ lit "```" ++ rest)).
    cbn [Re.lazy_body]. rewrite N.eqb_refl.
    rewrite (ReFacts.closing_fence_complete [] rest eq_refl). reflexivity.
  - simpl in Hx. apply andb_prop in Hx as [Hc Hx]. apply negb_true_iff in Hc.
    change ((c :: x) ++ 125%N :: lit "```" ++ rest)
      with (c :: (x ++ 125%N :: lit "```" ++ rest)).
    cbn [Re.lazy_body]. rewrite Hc, (IH Hx). reflexivity.
Qed.

Lemma plain_no_brace (v : str) :
  forallb plain v = true -> forallb (fun c => negb (c =? 125)%N) v = true.
Proof.
  induction v as [|c v IH]; simpl; [reflexivity|].
  intros H. apply andb_prop in H as [Hc Hv].
  destruct (plain_facts c Hc) as (_ & _ & _ & H4 & _).
  rewrite H4, (IH Hv). reflexivity.
Qed.

Lemma match_here_json_pair (key value t : str) :
  forallb plain key = true -> forallb plain value = true ->
  Re.match_here (fence (json_pair key value) ++ t) = Some (json_pair key value, t).
Proof.
  intros Hk Hv. unfold Re.match_here, fence. rewrite <- !app_assoc.
  rewrite strip_prefix_complete.
  set (inner := [DQUOTE] ++ key ++ [DQUOTE] ++ lit ": " ++ [DQUOTE] ++ value ++ [DQUOTE]).
  assert (Hpair : json_pair key value = 123%N :: inner ++ [125%N]).
  { unfold json_pair, inner. change (lit "{") with [123%N]. change (lit "}") with [125%N].
    change ([123%N] ++ ?x) with (123%N :: x). f_equal.
    rewrite <- !app_assoc. reflexivity. }
  rewrite Hpair.
  change ((123%N :: inner ++ [125%N]) ++ lit "```" ++ t)
    with (123%N :: ((inner ++ [125%N]) ++ lit "```" ++ t)).
  cbn [lstrip].
  change (isspace 123%N) with false. cbv iota.
  rewrite N.eqb_refl.
  rewrite <- app_assoc.
  change ([125%N] ++ lit "```" ++ t) with (125%N :: lit "```" ++ t).
  rewrite lazy_body_to_brace; [reflexivity|].
  unfold inner.
  repeat (rewrite forallb_app; apply andb_true_intro; split);
    try reflexivity; apply plain_no_brace; assumption.
Qed.

Lemma loads_json_pair (key value : str) :
  forallb plain key = true -> forallb plain value = true ->
  Json.loads (json_pair key value) = Return (PDict [(key, PStr value)]).
Proof.
  intros Hk Hv. unfold Json.loads.
  set (doc := json_pair key value).
  set (n := length doc).
  assert (Hdoc : doc = 123%N :: DQUOTE :: key ++ DQUOTE :: 58%N :: 32%N :: DQUOTE
                        :: value ++ DQUOTE :: [125%N]).
  { unfold doc, json_pair.
    change (lit "{") with [123%N]. change (lit "}") with [125%N].
    change (lit ": ") with [58%N; 32%N].
    cbn [app]. rewrite <- ?app_assoc. reflexivity. }
  assert (Hfuel : exists f, 2 * n + 1 = S (S (S f))).
  { exists (2 * n - 2). unfold n. rewrite Hdoc. simpl. lia. }
  destruct Hfuel as [f ->].
  rewrite Hdoc at 1. change (startswith (123%N :: _) [65279%N]) with false. cbv iota.
  rewrite Hdoc at 1.
  change (Json.skip_ws (123%N :: ?x)) with (123%N :: x).
  cbn [Json.scan_once].
  change (123 =? DQUOTE)%N with false. change (123 =? 123)%N with true. cbv iota.
  change (Json.skip_ws (DQUOTE :: ?x)) with (DQUOTE :: x).
  change (DQUOTE =? 125)%N with false. cbv iota.
  cbn [Json.pairs_from]. rewrite N.eqb_refl.
  rewrite (scanstring_plain n _ key _ Hk).
  change (Json.skip_ws (58%N :: ?x)) with (58%N :: x). cbv iota.
  change (58 =? 58)%N with true. cbv iota.
  change (Json.skip_ws (32%N :: DQUOTE :: ?x)) with (DQUOTE :: x).
  cbn [Json.scan_once]. rewrite N.eqb_refl.
  rewrite (scanstring_plain n _ value _ Hv).
  reflexivity.
Qed.

(** X10.  An answer in the form the prompt asks for is read back as it was
    written: for a key and a value of plain characters, with no backtick in
    the text around the fenced object, the Verdict is the object with that
    key and that value. *)
Theorem fenced_pair_read_back (before after key value : str) :
  free_of BACKTICK before -> free_of BACKTICK after ->
  forallb plain key = true -> forallb plain value = true ->
  parse_llm_output (before ++ fence (json_pair key value) ++ after)
  = Return (PDict [(key, PStr value)]).
Proof.
  intros Hb Ha Hk Hv.
  assert (Hf : Re.findall (before ++ fence (json_pair key value) ++ after)
               = [] ++ [json_pair key value]).
  { unfold Re.findall.
    rewrite findall_from_no_backtick by exact Hb.
    rewrite findall_from_fence by (apply match_here_json_pair; assumption).
    rewrite <- (app_nil_r after).
    rewrite findall_from_no_backtick by exact Ha.
    reflexivity. }
  rewrite (parse_llm_output_matches _ _ _ Hf).
  rewrite (loads_json_pair key value Hk Hv). reflexivity.
Qed.

Lemma fenced_pair_read_back_witness :
  parse_llm_output (lit "Answer: " ++ fence (json_pair (lit "falls") (lit "true/false"))
                      ++ lit " (see note)")
  = Return (PDict [(lit "falls", PStr (lit "true/false"))]).
Proof.
  apply (fenced_pair_read_back (lit "Answer: ") (lit " (see note)")
           (lit "falls") (lit "true/false")); reflexivity.
Defined.

(** ** The prompt, beyond the claims *)

Lemma split_free (c : char) (s : str) : free_of c s -> split c s = [s].
Proof.
  unfold free_of. induction s as [|x s IH]; simpl; [reflexivity|].
  intros H. apply andb_prop in H as [Hx Hs]. apply negb_true_iff in Hx.
  rewrite Hx, (IH Hs). reflexivity.
Qed.

Lemma dedent_margin (text m : str) :
  m <> [] ->
  fold_left Textwrap.update_margin
    (Textwrap.indents (map Textwrap.normalize (split LF text))) None = Some m ->
  Textwrap.dedent text = join [LF] (map (Textwrap.shift m) (split LF text)).
Proof.
  intros Hm H. unfold Textwrap.dedent. rewrite H.
  destruct m as [|x m]; [congruence|].
  unfold Textwrap.shift. rewrite map_map. reflexivity.
Qed.

Lemma dedent_no_margin (text : str) :
  fold_left Textwrap.update_margin
    (Textwrap.indents (map Textwrap.normalize (split LF text))) None = Some [] ->
  Textwrap.dedent text = join [LF] (map Textwrap.normalize (split LF text)).
Proof. intros H. unfold Textwrap.dedent. rewrite H. reflexivity. Qed.

Lemma indents_app (X Y : list str) :
  Textwrap.indents (X ++ Y) = Textwrap.indents X ++ Textwrap.indents Y.
Proof. unfold Textwrap.indents. rewrite filter_app, map_app. reflexivity. Qed.

Lemma note_line_not_blank (l0 : str) :
  forallb Textwrap.is_blank (NOTE_LINE ++ l0) = false.
Proof.
  rewrite forallb_app.
  assert (H : forallb Textwrap.is_blank NOTE_LINE = false) by (vm_compute; reflexivity).
  rewrite H. reflexivity.
Qed.

Lemma indent_of_app (a r : str) (c : char) :
  forallb Textwrap.is_blank a = true -> Textwrap.is_blank c = false ->
  Textwrap.indent_of (a ++ c :: r) = a.
Proof.
  intros Ha Hc. induction a as [|x a IH]; simpl.
  - rewrite Hc. reflexivity.
  - simpl in Ha. apply andb_prop in Ha as [Hx Ha]. rewrite Hx, (IH Ha). reflexivity.
Qed.

Lemma note_line_indent (l0 : str) : Textwrap.indent_of (NOTE_LINE ++ l0) = INDENT.
Proof.
  assert (H : NOTE_LINE = INDENT ++ 72%N :: lit "ere is the note: ")
    by (vm_compute; reflexivity).
  rewrite H, <- app_assoc.
  change ((72%N :: lit "ere is the note: ") ++ l0)
    with (72%N :: (lit "ere is the note: " ++ l0)).
  apply indent_of_app; vm_compute; reflexivity.
Qed.

Lemma indents_note_line (l0 : str) (rest : list str) :
  Textwrap.indents ((NOTE_LINE ++ l0) :: rest) = INDENT :: Textwrap.indents rest.
Proof.
  unfold Textwrap.indents. cbn [filter]. rewrite note_line_not_blank.
  cbn [negb map]. rewrite note_line_indent. reflexivity.
Qed.

Lemma normalize_note_line (l0 : str) :
  Textwrap.normalize (NOTE_LINE ++ l0) = NOTE_LINE ++ l0.
Proof. unfold Textwrap.normalize. rewrite note_line_not_blank. reflexivity. Qed.

(** X11.  For a note of one line, the prompt is the template with its
    indent of twelve spaces removed from every line, and the note put
    after "Here is the note: " as it was given. *)
Theorem build_prompt_one_line (prompt_text : str) :
  free_of LF prompt_text ->
  build_prompt prompt_text = PROMPT_BEFORE_NOTE ++ prompt_text ++ PROMPT_AFTER_NOTE.
Proof.
  intros Hfree. unfold build_prompt.
  assert (Hsplit : split LF (prompt_head ++ prompt_text ++ prompt_tail)
                   = head_lines ++ (NOTE_LINE ++ prompt_text) :: tail_lines)
    by (apply (prompt_lines prompt_text prompt_text []), split_free, Hfree).
  assert (Hnh : map Textwrap.normalize head_lines = head_lines) by (vm_compute; reflexivity).
  assert (Hnt : map Textwrap.normalize tail_lines = tail_lines) by (vm_compute; reflexivity).
  assert (Hih : Textwrap.indents head_lines = repeat INDENT 5) by (vm_compute; reflexivity).
  assert (Hit : Textwrap.indents tail_lines = repeat INDENT 2) by (vm_compute; reflexivity).
  assert (Hfold : fold_left Textwrap.update_margin
                    (repeat INDENT 5 ++ INDENT :: repeat INDENT 2) None = Some INDENT)
    by (vm_compute; reflexivity).
  assert (Hsh : join [LF] (map (Textwrap.shift INDENT) head_lines)
                  ++ [LF] ++ lit "Here is the note: " = PROMPT_BEFORE_NOTE)
    by (vm_compute; reflexivity).
  assert (Hst : [LF] ++ join [LF] (map (Textwrap.shift INDENT) tail_lines) = PROMPT_AFTER_NOTE)
    by (vm_compute; reflexivity).
  rewrite (dedent_margin _ INDENT).
  - rewrite Hsplit, map_app. cbn [map].
    assert (Hnote : Textwrap.shift INDENT (NOTE_LINE ++ prompt_text)
                    = lit "Here is the note: " ++ prompt_text).
    { unfold NOTE_LINE. rewrite <- app_assoc.
      rewrite (TextwrapFacts.shift_indented INDENT [] _ (eq_sym (app_nil_r INDENT))).
      - reflexivity.
      - reflexivity. }
    rewrite Hnote.
    rewrite join_app by discriminate.
    rewrite join_first.
    rewrite <- Hsh, <- Hst.
    set (tl_ := map (Textwrap.shift INDENT) tail_lines).
    assert (Htl : exists x xs, tl_ = x :: xs) by (vm_compute; eauto).
    destruct Htl as (x & xs & ->).
    cbn [join]. rewrite <- !app_assoc. reflexivity.
  - discriminate.
  - rewrite Hsplit, map_app. cbn [map]. rewrite Hnh, Hnt, normalize_note_line.
    rewrite indents_app, indents_note_line, Hih, Hit. exact Hfold.
Qed.

Lemma build_prompt_one_line_witness :
  build_prompt (lit "Resident found on floor")
  = PROMPT_BEFORE_NOTE ++ lit "Resident found on floor" ++ PROMPT_AFTER_NOTE.
Proof.
  apply (build_prompt_one_line (lit "Resident found on floor")). reflexivity.
Defined.

Lemma update_margin_nil (indent : str) :
  Textwrap.update_margin (Some []) indent = Some [].
Proof. unfold Textwrap.update_margin. destruct indent; reflexivity. Qed.

Lemma fold_margin_nil (l : list str) :
  fold_left Textwrap.update_margin l (Some []) = Some [].
Proof.
  induction l as [|indent l IH]; cbn [fold_left]; [reflexivity|].
  rewrite update_margin_nil. exact IH.
Qed.

Lemma fold_margin_unindented (l : list str) :
  In [] l -> forall m, fold_left Textwrap.update_margin l (Some m) = Some [].
Proof.
  induction l as [|indent l IH]; intros Hin m; [destruct Hin|].
  cbn [fold_left]. destruct Hin as [->|Hin].
  - assert (H : Textwrap.update_margin (Some m) [] = Some [])
      by (destruct m; reflexivity).
    rewrite H. apply fold_margin_nil.
  - destruct (TextwrapFacts.update_margin_prefix m indent) as (m' & r & -> & _).
    apply IH, Hin.
Qed.

Lemma normalize_kept (ls : list str) :
  Forall not_only_blanks ls -> map Textwrap.normalize ls = ls.
Proof.
  induction 1 as [|l ls [->|Hl] _ IH]; cbn [map]; [reflexivity | |];
    rewrite IH; [reflexivity|].
  unfold Textwrap.normalize. rewrite Hl. reflexivity.
Qed.

(** X12.  When a line of the note after its first starts with a character
    other than a space or a tab, and no line after the first holds blanks
    only, [dedent] removes nothing: the prompt is the text of the template
    with its indent of twelve spaces, the note inside. *)
Theorem build_prompt_keeps_indent (prompt_text : str) :
  Exists starts_unindented (tl (split LF prompt_text)) ->
  Forall not_only_blanks (tl (split LF prompt_text)) ->
  build_prompt prompt_text = prompt_head ++ prompt_text ++ prompt_tail.
Proof.
  destruct (split_cons LF prompt_text) as (l0 & ls & Ht). rewrite Ht. cbn [tl].
  intros Hex Hall. unfold build_prompt.
  assert (Hnh : map Textwrap.normalize head_lines = head_lines) by (vm_compute; reflexivity).
  assert (Hnt : map Textwrap.normalize tail_lines = tail_lines) by (vm_compute; reflexivity).
  assert (Hih : Textwrap.indents head_lines = repeat INDENT 5) by (vm_compute; reflexivity).
  assert (Hfold : fold_left Textwrap.update_margin (repeat INDENT 5) None = Some INDENT)
    by (vm_compute; reflexivity).
  assert (Hnorm : map Textwrap.normalize (split LF (prompt_head ++ prompt_text ++ prompt_tail))
                  = split LF (prompt_head ++ prompt_text ++ prompt_tail)).
  { rewrite (prompt_lines prompt_text l0 ls Ht).
    rewrite map_app. cbn [map]. rewrite map_app.
    rewrite Hnh, Hnt, normalize_note_line, (normalize_kept ls Hall). reflexivity. }
  rewrite dedent_no_margin.
  - rewrite Hnorm. apply join_split.
  - rewrite Hnorm, (prompt_lines prompt_text l0 ls Ht).
    rewrite indents_app, Hih, fold_left_app, Hfold.
    apply fold_margin_unindented.
    apply Exists_exists in Hex as (line & Hin & Hline).
    destruct line as [|c line]; [destruct Hline|]. simpl in Hline.
    unfold Textwrap.indents. apply in_map_iff.
    exists (c :: line). split.
    + simpl. rewrite Hline. reflexivity.
    + apply filter_In. split.
      * right. apply in_or_app. left. exact Hin.
      * simpl. rewrite Hline. reflexivity.
Qed.

Lemma build_prompt_keeps_indent_witness :
  build_prompt (lit "Found on floor" ++ [LF] ++ lit "No injury")
  = prompt_head ++ (lit "Found on floor" ++ [LF] ++ lit "No injury") ++ prompt_tail.
Proof.
  apply (build_prompt_keeps_indent (lit "Found on floor" ++ [LF] ++ lit "No injury")).
  - vm_compute. apply Exists_cons_hd. reflexivity.
  - vm_compute. constructor; [right; reflexivity | constructor].
Defined.

(** ** The window and the worker thread *)

Lemma for_rows_returned (E : env) :
  forall rows i st boundaries s,
    for_rows E i rows st = (boundaries, Done s) ->
    exists k entries,
      k <= length rows
      /\ results (self s) = results (self st) ++ entries
      /\ Forall2 recorded (firstn k rows) entries
      /\ rows_processed (self s) = rows_processed (self st) + k
      /\ output_path (self s) = output_path (self st)
      /\ processing_done (self s) = processing_done (self st)
      /\ (cancel_requested (self s) = true \/ k = length rows).
Proof.
  induction rows as [|row rows IH]; intros i st boundaries s; cbn [for_rows].
  { intros H; inversion H; subst. exists 0, []. simpl. rewrite app_nil_r.
    repeat split; auto. }
  destruct (cancel_requested (self (observe E i st))) eqn:Hc.
  { intros H; inversion H; subst. exists 0, []. simpl. rewrite app_nil_r.
    repeat split; auto; lia. }
  destruct (process_row_cases E (observe E i st) row)
    as [(entry & st1 & Hrow & Hrec & Hself) | (e1 & st1 & Hrow & _)];
    rewrite Hrow; [|discriminate].
  destruct (for_rows E (S i) rows st1) as [b1 o1] eqn:Hloop.
  intros H; inversion H; subst o1.
  destruct (IH (S i) st1 b1 s Hloop)
    as (k & entries & Hk & Hres & Hall & Hrp & Hpath & Hdone & Hend).
  rewrite Hself in Hres, Hrp, Hpath, Hdone. simpl in Hres, Hrp, Hpath, Hdone.
  exists (S k), (entry :: entries). simpl.
  repeat split; auto; try lia.
  - rewrite Hres, <- app_assoc. reflexivity.
  - destruct Hend as [Hend | ->]; auto.
Qed.

Lemma process_rows_returned (E : env) (rows : list (list str)) (st final : state) :
  snd (process_rows E rows st) = Done final ->
  exists k entries,
    k <= length rows
    /\ results (self final) = results (self st) ++ entries
    /\ Forall2 recorded (firstn k rows) entries
    /\ rows_processed (self final) = k
    /\ output_path (self final) = output_path (self st)
    /\ processing_done (self final) = true
    /\ (cancel_requested (self final) = true \/ k = length rows).
Proof.
  unfold process_rows.
  destruct (for_rows E 0 rows (begin_run rows st)) as [b o] eqn:Hloop.
  destruct o as [s|e s]; [|discriminate].
  simpl. intros H; inversion H; subst. simpl.
  destruct (for_rows_returned E rows 0 (begin_run rows st) b s Hloop)
    as (k & entries & Hk & Hres & Hall & Hrp & Hpath & _ & Hend).
  exists k, entries. repeat split; auto.
Qed.

(** X13.  After [process_rows] has returned, the next poll of the window
    shows the end of the work and is the last: the label is the closing
    text, the report button is enabled, and no further poll is asked for.
    This holds whether the run was completed or cancelled, and whatever the
    answer to a later cancel question. *)
Theorem returned_run_shows_done
  (E : env) (rows : list (list str)) (st final : state)
  (confirmed : bool) (w : progress_window) :
  snd (process_rows E rows st) = Done final ->
  update_progress (request_cancel (Some (self final)) confirmed) rows w
  = ({| progress_label := DONE_LABEL;
        progress_bar_value := rows_processed (self final);
        progress_bar_maximum := progress_bar_maximum w;
        open_file_btn_enabled := true |}, false).
Proof.
  intros Hrun.
  destruct (process_rows_returned E rows st final Hrun)
    as (k & entries & _ & _ & _ & Hrp & _ & Hdone & Hend).
  unfold update_progress, request_cancel.
  destruct confirmed; cbn [processing_done cancel_requested rows_processed].
  - rewrite Hdone, orb_true_r. reflexivity.
  - rewrite Hdone. destruct Hend as [-> | ->].
    + rewrite orb_true_r. reflexivity.
    + rewrite Hrp, Nat.eqb_refl. reflexivity.
Qed.

Lemma returned_run_shows_done_witness :
  update_progress
    (request_cancel
       (Some (self (state_of (snd (process_rows cancelling_env five_records (fresh OUT))))))
       false)
    five_records (open_progress_window five_records)
  = ({| progress_label := DONE_LABEL;
        progress_bar_value := 3;
        progress_bar_maximum := 5;
        open_file_btn_enabled := true |}, false).
Proof.
  apply (returned_run_shows_done cancelling_env five_records (fresh OUT)
           (state_of (snd (process_rows cancelling_env five_records (fresh OUT))))
           false (open_progress_window five_records)).
  vm_compute. reflexivity.
Defined.

Lemma process_rows_raised (E : env) (rows : list (list str)) (st : state)
  (e : exn) (s : state) :
  snd (process_rows E rows st) = Raised e s ->
  processing_done (self s) = processing_done (self st).
Proof.
  unfold process_rows.
  destruct (for_rows E 0 rows (begin_run rows st)) as [b o] eqn:Hloop.
  destruct o as [s1|e1 s1]; [discriminate|].
  simpl. intros H; inversion H; subst.
  destruct (for_rows_raised E rows 0 (begin_run rows st) b e s Hloop)
    as (k & entries & _ & _ & _ & _ & Hdone & _).
  exact Hdone.
Qed.

(** X14.  When an exception leaves [process_rows] on a core whose
    [processing_done] was not set, the worker thread ends there: nothing is
    written to any file, and every later poll of the window asks for
    another, with the report button as it was, whatever the answer to a
    cancel question. *)
Theorem worker_death_keeps_polling
  (float_repr str_repr : str -> str) (E : env) (rows : list (list str))
  (st : state) (e : exn) (s : state) (fs : files)
  (confirmed : bool) (w : progress_window) :
  processing_done (self st) = false ->
  snd (process_rows E rows st) = Raised e s ->
  run_core_logic float_repr str_repr E (Some st) rows fs = Died e s fs
  /\ exists label,
      update_progress (request_cancel (Some (self s)) confirmed) rows w
      = ({| progress_label := label;
            progress_bar_value := rows_processed (self s);
            progress_bar_maximum := progress_bar_maximum w;
            open_file_btn_enabled := open_file_btn_enabled w |}, true).
Proof.
  intros Hst Hrun. split.
  - unfold run_core_logic. rewrite Hrun. reflexivity.
  - pose proof (process_rows_raised E rows st e s Hrun) as Hdone.
    rewrite Hst in Hdone.
    unfold update_progress, request_cancel.
    destruct confirmed; cbn [processing_done cancel_requested rows_processed];
      rewrite Hdone; cbn [andb]; eexists; reflexivity.
Qed.

Lemma worker_death_keeps_polling_witness :
  run_core_logic (fun x => x) (fun x => x) (failing_from 1 REPLY_TRUE)
    (Some (fresh OUT)) four_records []
  = Died (OSError "cannot start the inference process")
      (state_of (snd (process_rows (failing_from 1 REPLY_TRUE) four_records (fresh OUT)))) []
  /\ exists label,
      update_progress
        (request_cancel
           (Some (self (state_of (snd (process_rows (failing_from 1 REPLY_TRUE)
                                         four_records (fresh OUT))))))
           true)
        four_records (open_progress_window four_records)
      = ({| progress_label := label;
            progress_bar_value := 2;
            progress_bar_maximum := 4;
            open_file_btn_enabled := false |}, true).
Proof.
  apply (worker_death_keeps_polling (fun x => x) (fun x => x) (failing_from 1 REPLY_TRUE)
           four_records (fresh OUT) (OSError "cannot start the inference process")
           (state_of (snd (process_rows (failing_from 1 REPLY_TRUE) four_records (fresh OUT))))
           [] true (open_progress_window four_records)).
  - reflexivity.
  - vm_compute. reflexivity.
Defined.




